(** * Version registry of Electron Fiddle: [src/renderer/versions.ts]

    A shallow embedding of the renderer's version registry (default version,
    release channel, local store, install state, support window) and the
    properties its specification states about it. *)

From Stdlib Require Import String Ascii ZArith NArith List Bool Lia.
From Stdlib Require Import Permutation Sorted DecimalString DecimalN.
Import ListNotations.

Local Open Scope string_scope.
Local Open Scope Z_scope.

(** ** JavaScript values used by the module *)

(** Strings are sequences of code units; the model keeps the code units
    below 256, one [ascii] each. *)
Module JSString.

Definition code (c : ascii) : N := N_of_ascii c.

Definition isDigit (c : ascii) : bool :=
  ((48 <=? code c) && (code c <=? 57))%N.

Definition isLetter (c : ascii) : bool :=
  (((65 <=? code c) && (code c <=? 90)) || ((97 <=? code c) && (code c <=? 122)))%N.

(** [WhiteSpace] and [LineTerminator] code points below 256:
    TAB, LF, VT, FF, CR, SP and NBSP. *)
Definition isWhiteSpace (c : ascii) : bool :=
  (((9 <=? code c) && (code c <=? 13)) || (code c =? 32) || (code c =? 160))%N.

(** [s.startsWith(search)] *)
Definition startsWith (search s : string) : bool := String.prefix search s.

(** [s.includes(search)] *)
Fixpoint includes (search s : string) : bool :=
  startsWith search s ||
  match s with
  | EmptyString => false
  | String _ s' => includes search s'
  end.

(** [s.endsWith(search)] *)
Fixpoint endsWith (search s : string) : bool :=
  String.eqb s search ||
  match s with
  | EmptyString => false
  | String _ s' => endsWith search s'
  end.

Fixpoint trimStart (s : string) : string :=
  match s with
  | String c s' => if isWhiteSpace c then trimStart s' else s
  | EmptyString => EmptyString
  end.

(** Drops trailing white space; [None] stands for a string that was white
    space only. *)
Fixpoint trimEnd_aux (s : string) : option string :=
  match s with
  | EmptyString => None
  | String c s' =>
      match trimEnd_aux s' with
      | Some r => Some (String c r)
      | None => if isWhiteSpace c then None else Some (String c EmptyString)
      end
  end.

Definition trimEnd (s : string) : string :=
  match trimEnd_aux s with Some r => r | None => EmptyString end.

(** [s.trim()] *)
Definition trim (s : string) : string := trimEnd (trimStart s).

(** [s.split(sep)] for a one-character separator. *)
Fixpoint split (sep : ascii) (s : string) : list string :=
  match s with
  | EmptyString => [EmptyString]
  | String c s' =>
      if Ascii.eqb c sep then EmptyString :: split sep s'
      else match split sep s' with
           | h :: t => String c h :: t
           | [] => [String c EmptyString]
           end
  end.

(** [parts.join(sep)] *)
Fixpoint join (sep : string) (parts : list string) : string :=
  match parts with
  | [] => EmptyString
  | [p] => p
  | p :: rest => p ++ sep ++ join sep rest
  end.

(** The longest prefix whose characters satisfy [p], and what follows it. *)
Fixpoint span (p : ascii -> bool) (s : string) : string * string :=
  match s with
  | String c s' =>
      if p c then let '(a, b) := span p s' in (String c a, b)
      else (EmptyString, s)
  | EmptyString => (EmptyString, EmptyString)
  end.

Fixpoint all (p : ascii -> bool) (s : string) : bool :=
  match s with
  | String c s' => p c && all p s'
  | EmptyString => true
  end.

(** Truthiness of a string: every string but the empty one. *)
Definition truthy (s : string) : bool := negb (String.eqb s EmptyString).

End JSString.

Import JSString.

(** Numbers: the module only handles integers, the infinities and NaN.
    [Num z] is the double holding the integer [z]; [-0] and [+0] are both
    [Num 0]; [Infinity false] is [Infinity], [Infinity true] is
    [-Infinity]. *)
Inductive number : Type :=
| NaN
| Num (z : Z)
| Infinity (negative : bool).

Module JSNumber.

(** The double nearest to a non-negative integer (ties to even): the
    identity up to 2^53. *)
Definition toDouble (n : Z) : Z :=
  if n <? 2 ^ 53 then n
  else
    let e := Z.log2 n - 52 in
    let q := n / 2 ^ e in
    let r := n mod 2 ^ e in
    let half := 2 ^ (e - 1) in
    if r <? half then q * 2 ^ e
    else if half <? r then (q + 1) * 2 ^ e
    else if Z.even q then q * 2 ^ e
    else (q + 1) * 2 ^ e.

(** [a - b]: on doubles holding integers the sign of the difference is
    the sign of the exact difference, which is all a sort looks at. *)
Definition sub (a b : number) : number :=
  match a, b with
  | Num x, Num y => Num (x - y)
  | Infinity s, Num _ => Infinity s
  | Num _, Infinity t => Infinity (negb t)
  | Infinity s, Infinity t => if Bool.eqb s t then NaN else Infinity s
  | NaN, _ => NaN
  | _, NaN => NaN
  end.

(** Unary minus. *)
Definition neg (a : number) : number :=
  match a with
  | Num x => Num (- x)
  | Infinity s => Infinity (negb s)
  | NaN => NaN
  end.

Definition digitValue (radix : Z) (c : ascii) : option Z :=
  let n := Z.of_N (code c) in
  let v := if isDigit c then Some (n - 48)
           else if ((97 <=? n) && (n <=? 102)) then Some (n - 87)
           else if ((65 <=? n) && (n <=? 70)) then Some (n - 55)
           else None in
  match v with
  | Some d => if d <? radix then Some d else None
  | None => None
  end.

(** The value of the longest prefix of radix-[radix] digits, [None] when
    the first character is not a digit. *)
Fixpoint digits (radix : Z) (acc : option Z) (s : string) : option Z :=
  match s with
  | String c s' =>
      match digitValue radix c with
      | Some d =>
          digits radix (Some (match acc with Some a => a * radix + d | None => d end)) s'
      | None => acc
      end
  | EmptyString => acc
  end.

(** The largest double is below 2^1024; an integer that rounds to 2^1024
    or more is [Infinity]. *)
Definition overflows (d : Z) : bool := 2 ^ 1024 <=? d.

(** [Number.parseInt(input)] with no radix argument. *)
Definition parseInt (input : string) : number :=
  let str := trimStart input in
  let '(sign, str) :=
    match str with
    | String "-" r => (-1, r)
    | String "+" r => (1, r)
    | _ => (1, str)
    end in
  let '(R, rest) :=
    match str with
    | String "0" (String "x" r) => (16, r)
    | String "0" (String "X" r) => (16, r)
    | _ => (10, str)
    end in
  match digits R None rest with
  | None => NaN
  | Some mathInt =>
      let d := toDouble mathInt in
      if overflows d then Infinity (sign <? 0) else Num (sign * d)
  end.

End JSNumber.

(** Exceptions the module can raise or meet. *)
Inductive exn : Type :=
| Error (message : string)
| TypeError
| SyntaxError.

Inductive result (A : Type) : Type :=
| Ok (a : A)
| Throw (e : exn).

Arguments Ok {A} a.
Arguments Throw {A} e.

Definition rbind {A B : Type} (r : result A) (k : A -> result B) : result B :=
  match r with
  | Ok a => k a
  | Throw e => Throw e
  end.

Notation "x <- c ;; k" := (rbind c (fun x => k))
  (at level 61, c at next level, right associativity).

(** ** Arrays *)
Module JSArray.

Section Sort.
Context {A : Type}.
Variable comparefn : A -> A -> result number.

(** What [SortCompare] makes of the comparator's answer: a positive
    number puts the first argument after the second; NaN counts as 0. *)
Definition after (v : number) : bool :=
  match v with
  | Num z => 0 <? z
  | Infinity negative => negb negative
  | NaN => false
  end.

Fixpoint insert (x : A) (l : list A) : result (list A) :=
  match l with
  | [] => Ok [x]
  | y :: l' =>
      v <- comparefn x y ;;
      if after v then (r <- insert x l' ;; Ok (y :: r)) else Ok (x :: l)
  end.

(** [array.sort(comparefn)] on an array without [undefined] entries.
    The sort is stable, so with a consistent comparator the result is
    the one stable ordering, here computed by insertion; an exception
    of the comparator leaves the sort.  With a comparator that is not
    consistent (one that answers NaN for some pairs and orders others)
    the language leaves the order to the engine: the model then gives a
    rearrangement that need not be the engine's, and every property
    below that speaks of the order assumes the compared values are
    ordered. *)
Fixpoint sort (l : list A) : result (list A) :=
  match l with
  | [] => Ok []
  | x :: l' => s <- sort l' ;; insert x s
  end.
End Sort.

(** [array.slice(start)] *)
Definition slice {A : Type} (start : Z) (l : list A) : list A :=
  let len := Z.of_nat (length l) in
  let k := if start <? 0 then Z.max (len + start) 0 else Z.min start len in
  skipn (Z.to_nat k) l.

(** The value of [array.shift()]: the first element, [None] for
    [undefined]. *)
Definition shift {A : Type} (l : list A) : option A := hd_error l.

End JSArray.

(** ** The [semver] package, as far as the module calls it

    [semver.parse] and [semver.compare] in strict mode (no options), after
    [classes/semver.js], [functions/parse.js] and [internal/re.js] of the
    package (7.5 and later, where [parse] is the constructor with its
    exception caught). *)
Module semver.

Definition MAX_LENGTH : nat := 256.
Definition MAX_SAFE_INTEGER : Z := 9007199254740991.

(** A prerelease identifier is kept as a number or as a string. *)
Inductive identifier : Type :=
| IdNum (n : Z)
| IdStr (s : string).

Record SemVer : Type := mkSemVer {
  raw : string;
  major : Z;
  minor : Z;
  patch : Z;
  prerelease : list identifier;
  build : list string;
  version : string
}.

(** [+digits] for a string of decimal digits. *)
Definition toNumber (s : string) : Z :=
  match JSNumber.digits 10 None s with
  | Some v => JSNumber.toDouble v
  | None => 0
  end.

(** [String(n)] for an integer below 10^21. *)
Definition toString (n : Z) : string :=
  NilZero.string_of_uint (N.to_uint (Z.to_N n)).

Definition isLetterDashNumber (c : ascii) : bool :=
  isDigit c || isLetter c || Ascii.eqb c "-".

(** NUMERICIDENTIFIER, [0|[1-9]\d*], at the start of [s], when what
    follows it is not a digit: the digits matched and the rest. *)
Definition numericIdentifier (s : string) : option (string * string) :=
  let '(d, rest) := span isDigit s in
  match d with
  | EmptyString => None
  | String c (String _ _) => if Ascii.eqb c "0" then None else Some (d, rest)
  | String _ EmptyString => Some (d, rest)
  end.

(** PRERELEASEIDENTIFIER, [0|[1-9]\d*|\d*[a-zA-Z-][a-zA-Z0-9-]*], matching
    all of [id]. *)
Definition prereleaseIdentifier (id : string) : bool :=
  if all isDigit id then
    match id with
    | EmptyString => false
    | String c (String _ _) => negb (Ascii.eqb c "0")
    | String _ EmptyString => true
    end
  else all isLetterDashNumber id.

(** BUILDIDENTIFIER, [[a-zA-Z0-9-]+], matching all of [id]. *)
Definition buildIdentifier (id : string) : bool :=
  truthy id && all isLetterDashNumber id.

Definition expect (c : ascii) (s : string) : option string :=
  match s with
  | String c' r => if Ascii.eqb c' c then Some r else None
  | EmptyString => None
  end.

(** The capture groups of a match: major, minor, patch, prerelease, build. *)
Definition groups : Type :=
  (string * string * string * option string * option string)%type.

(** What follows MAINVERSION in FULL: [(?:-(pre))?(?:\+(build))?$]. *)
Definition tail (s : string) : option (option string * option string) :=
  match s with
  | EmptyString => Some (None, None)
  | String c r =>
      if Ascii.eqb c "-" then
        let '(pre, r2) := span (fun c => negb (Ascii.eqb c "+")) r in
        if forallb prereleaseIdentifier (split "." pre) then
          match r2 with
          | EmptyString => Some (Some pre, None)
          | String _ b =>
              if forallb buildIdentifier (split "." b) then Some (Some pre, Some b)
              else None
          end
        else None
      else if Ascii.eqb c "+" then
        if forallb buildIdentifier (split "." r) then Some (None, Some r) else None
      else None
  end.

(** [s.match(re[t.FULL])], FULL being [^v?MAINVERSION PRERELEASE? BUILD?$]. *)
Definition FULL (s : string) : option groups :=
  let s0 :=
    match s with
    | String c r => if Ascii.eqb c "v" then r else s
    | EmptyString => s
    end in
  match numericIdentifier s0 with
  | None => None
  | Some (m1, s1) =>
      match expect "." s1 with
      | None => None
      | Some s1' =>
          match numericIdentifier s1' with
          | None => None
          | Some (m2, s2) =>
              match expect "." s2 with
              | None => None
              | Some s2' =>
                  match numericIdentifier s2' with
                  | None => None
                  | Some (m3, s3) =>
                      match tail s3 with
                      | None => None
                      | Some (m4, m5) => Some (m1, m2, m3, m4, m5)
                      end
                  end
              end
          end
      end
  end.

(** [SemVer.format()] *)
Definition idToString (id : identifier) : string :=
  match id with
  | IdNum n => toString n
  | IdStr s => s
  end.

Definition format (major minor patch : Z) (prerelease : list identifier) : string :=
  let main := toString major ++ "." ++ toString minor ++ "." ++ toString patch in
  match prerelease with
  | [] => main
  | _ :: _ => main ++ "-" ++ join "." (map idToString prerelease)
  end.

(** [new SemVer(version)] for a string. *)
Definition new_SemVer (version : string) : result SemVer :=
  if (MAX_LENGTH <? String.length version)%nat then Throw TypeError
  else
    match FULL (trim version) with
    | None => Throw TypeError
    | Some (m1, m2, m3, m4, m5) =>
        let major := toNumber m1 in
        let minor := toNumber m2 in
        let patch := toNumber m3 in
        if (MAX_SAFE_INTEGER <? major) || (major <? 0) then Throw TypeError
        else if (MAX_SAFE_INTEGER <? minor) || (minor <? 0) then Throw TypeError
        else if (MAX_SAFE_INTEGER <? patch) || (patch <? 0) then Throw TypeError
        else
          let prerelease :=
            match m4 with
            | None => []
            | Some p =>
                map (fun id =>
                       if truthy id && all isDigit id then
                         let num := toNumber id in
                         if (0 <=? num) && (num <? MAX_SAFE_INTEGER) then IdNum num
                         else IdStr id
                       else IdStr id)
                    (split "." p)
            end in
          let build := match m5 with Some b => split "." b | None => [] end in
          Ok {| raw := version; major := major; minor := minor; patch := patch;
                prerelease := prerelease; build := build;
                version := format major minor patch prerelease |}
    end.

(** [semver.parse(version)]: [null] when the constructor throws. *)
Definition parse (version : string) : option SemVer :=
  match new_SemVer version with
  | Ok v => Some v
  | Throw _ => None
  end.

Definition numeric (a : identifier) : bool :=
  match a with
  | IdNum _ => true
  | IdStr s => truthy s && all isDigit s
  end.

Definition idToNumber (a : identifier) : Z :=
  match a with
  | IdNum n => n
  | IdStr s => toNumber s
  end.

(** [a === b] *)
Definition strictEq (a b : identifier) : bool :=
  match a, b with
  | IdNum n, IdNum m => n =? m
  | IdStr s, IdStr t => String.eqb s t
  | _, _ => false
  end.

(** [a < b] on two identifiers that are both strings or both numbers. *)
Definition lessThan (a b : identifier) : bool :=
  match a, b with
  | IdNum n, IdNum m => n <? m
  | IdStr s, IdStr t => String.ltb s t
  | _, _ => false
  end.

(** [compareIdentifiers] of [internal/identifiers.js]. *)
Definition compareIdentifiers (a b : identifier) : Z :=
  let anum := numeric a in
  let bnum := numeric b in
  let '(a, b) :=
    if anum && bnum then (IdNum (idToNumber a), IdNum (idToNumber b)) else (a, b) in
  if strictEq a b then 0
  else if anum && negb bnum then -1
  else if bnum && negb anum then 1
  else if lessThan a b then -1
  else 1.

(** [a || b] on numbers. *)
Definition orElse (a b : Z) : Z := if a =? 0 then b else a.

Definition compareMain (this other : SemVer) : Z :=
  orElse (compareIdentifiers (IdNum (major this)) (IdNum (major other)))
    (orElse (compareIdentifiers (IdNum (minor this)) (IdNum (minor other)))
       (compareIdentifiers (IdNum (patch this)) (IdNum (patch other)))).

Fixpoint comparePre_loop (l1 l2 : list identifier) : Z :=
  match l1, l2 with
  | [], [] => 0
  | _ :: _, [] => 1
  | [], _ :: _ => -1
  | a :: l1', b :: l2' =>
      if strictEq a b then comparePre_loop l1' l2' else compareIdentifiers a b
  end.

Definition comparePre (this other : SemVer) : Z :=
  match prerelease this, prerelease other with
  | _ :: _, [] => -1
  | [], _ :: _ => 1
  | [], [] => 0
  | l1, l2 => comparePre_loop l1 l2
  end.

(** [this.compare(other)] for two [SemVer] objects. *)
Definition SemVer_compare (this other : SemVer) : Z :=
  if String.eqb (version other) (version this) then 0
  else orElse (compareMain this other) (comparePre this other).

(** [semver.compare(a, b)], where an argument may be [null]: the
    constructor then throws a [TypeError]. *)
Definition compare (a b : option SemVer) : result Z :=
  match a, b with
  | Some x, Some y => Ok (SemVer_compare x y)
  | _, _ => Throw TypeError
  end.

End semver.

(** ** Data model *)

(** Modelled from the spec: [VersionSource] of [src/interfaces.ts], the
    [source] discriminant of a runnable version, local or remote. *)
Module VersionSource.
Inductive t : Type := remote | local.

Definition eqb (a b : t) : bool :=
  match a, b with
  | remote, remote | local, local => true
  | _, _ => false
  end.
End VersionSource.

(** [InstallState] of [@electron/fiddle-core]: the two states this module
    reports. *)
Module InstallState.
Inductive t : Type := missing | installed.
End InstallState.

(** Modelled from the spec: [ElectronReleaseChannel] of
    [src/interfaces.ts], the channels stable, beta and nightly. *)
Module ElectronReleaseChannel.
Inductive t : Type := stable | beta | nightly.
End ElectronReleaseChannel.

(** Modelled from the spec: [Version] of [src/interfaces.ts],
    [{ version: string, name?: string, localPath?: string }]; an absent
    property is [None]. *)
Record Version : Type := mkVersion {
  version : string;
  name : option string;
  localPath : option string
}.

(** Modelled from the spec: [RunnableVersion] of [src/interfaces.ts], a
    [Version] plus [source] and [state]. *)
Record RunnableVersion : Type := mkRunnableVersion {
  ver :> Version;
  source : VersionSource.t;
  state : InstallState.t
}.

(** An element of a parsed JSON array: an object whose properties hold
    strings.  It carries the properties this module reads: those of
    [Version] and [RunnableVersion], and [tag_name] and [url] of the
    format used before 0.5. *)
Record Entry : Type := mkEntry {
  entry_version : option string;
  entry_name : option string;
  entry_localPath : option string;
  entry_source : option VersionSource.t;
  entry_state : option InstallState.t;
  entry_tag_name : option string;
  entry_url : option string
}.

(** A [Version] and a [RunnableVersion] as the objects they are. *)
Definition entryOfVersion (v : Version) : Entry :=
  {| entry_version := Some (version v);
     entry_name := name v;
     entry_localPath := localPath v;
     entry_source := None;
     entry_state := None;
     entry_tag_name := None;
     entry_url := None |}.

Definition entryOfRunnable (r : RunnableVersion) : Entry :=
  {| entry_version := Some (version r);
     entry_name := name r;
     entry_localPath := localPath r;
     entry_source := Some (source r);
     entry_state := Some (state r);
     entry_tag_name := None;
     entry_url := None |}.

(** An element of an [Array<Version | RunnableVersion>]. *)
Definition entryOf (v : Version + RunnableVersion) : Entry :=
  match v with
  | inl p => entryOfVersion p
  | inr r => entryOfRunnable r
  end.

(** [!!x] and [Boolean(x)] for an optional string. *)
Definition truthyOpt (x : option string) : bool :=
  match x with
  | Some s => truthy s
  | None => false
  end.

(** [a === b] for two optional strings. *)
Definition optEqb (a b : option string) : bool :=
  match a, b with
  | Some s, Some t => String.eqb s t
  | None, None => true
  | _, _ => false
  end.

(** ** [localStorage]

    The three keys the module touches.  Under the two list keys a string
    is kept as what reading it does.  [Doc entries] is the JSON text of an
    array of objects, as [JSON.stringify] writes it and [JSON.parse] reads
    it back.  [EmptyText] is the empty string.  [Unreadable] is any text
    on which [JSON.parse] or the format check throws: text that is not
    JSON, JSON that is not an array, an array in which [null] comes before
    every element without a [version].  Arrays with other elements that
    are not objects, and properties that hold something other than a
    string, have no counterpart here. *)
Inductive Item : Type :=
| EmptyText
| Unreadable
| Doc (entries : list Entry).

Module VersionKeys.
Inductive t : Type := local | known.
End VersionKeys.

Record LocalStorage : Type := mkLocalStorage {
  ls_version : option string;
  ls_local : option Item;
  ls_known : option Item
}.

(** Code that reads and writes [localStorage] and may throw. *)
Definition M (A : Type) : Type := LocalStorage -> result A * LocalStorage.

Definition ret {A : Type} (a : A) : M A := fun ls => (Ok a, ls).

Definition throw {A : Type} (e : exn) : M A := fun ls => (Throw e, ls).

Definition bind {A B : Type} (m : M A) (k : A -> M B) : M B :=
  fun ls =>
    match m ls with
    | (Ok a, ls') => k a ls'
    | (Throw e, ls') => (Throw e, ls')
    end.

Definition tryCatch {A : Type} (m : M A) (handler : exn -> M A) : M A :=
  fun ls =>
    match m ls with
    | (Ok a, ls') => (Ok a, ls')
    | (Throw e, ls') => handler e ls'
    end.

Notation "x <~ c ;; k" := (bind c (fun x => k))
  (at level 61, c at next level, right associativity).

(** [window.localStorage.getItem(key)] *)
Definition getItem (key : VersionKeys.t) : M (option Item) :=
  fun ls =>
    (Ok match key with
        | VersionKeys.local => ls_local ls
        | VersionKeys.known => ls_known ls
        end, ls).

(** [window.localStorage.setItem(key, value)] *)
Definition setItem (key : VersionKeys.t) (value : Item) : M unit :=
  fun ls =>
    (Ok tt,
     match key with
     | VersionKeys.local =>
         {| ls_version := ls_version ls; ls_local := Some value; ls_known := ls_known ls |}
     | VersionKeys.known =>
         {| ls_version := ls_version ls; ls_local := ls_local ls; ls_known := Some value |}
     end).

(** Truthiness of a stored string. *)
Definition truthyItem (i : Item) : bool :=
  match i with
  | EmptyText => false
  | Unreadable => true
  | Doc _ => true
  end.

Definition JSON_parse (text : Item) : M (list Entry) :=
  match text with
  | Doc entries => ret entries
  | EmptyText => throw SyntaxError
  | Unreadable => throw SyntaxError
  end.

Definition JSON_stringify (entries : list Entry) : Item := Doc entries.

(** [array.filter(item => !!item)] on an array of objects and [null]s. *)
Fixpoint compact {A : Type} (l : list (option A)) : list A :=
  match l with
  | [] => []
  | Some a :: l' => a :: compact l'
  | None :: l' => compact l'
  end.

(** ** The file system

    A computation that may ask [fs.existsSync] about paths: it ends with a
    value or asks about one path and goes on with the answer. *)
Inductive FS (A : Type) : Type :=
| Return (a : A)
| ExistsSync (path : string) (k : bool -> FS A).

Arguments Return {A} a.
Arguments ExistsSync {A} path k.

Fixpoint fsBind {A B : Type} (m : FS A) (k : A -> FS B) : FS B :=
  match m with
  | Return a => k a
  | ExistsSync path k' => ExistsSync path (fun b => fsBind (k' b) k)
  end.

(** Runs a computation against a disk, given as the set of paths that
    exist. *)
Fixpoint run {A : Type} (disk : string -> bool) (m : FS A) : A :=
  match m with
  | Return a => a
  | ExistsSync path k => run disk (k (disk path))
  end.

(** The paths a computation asks about, in order. *)
Fixpoint probes {A : Type} (disk : string -> bool) (m : FS A) : list string :=
  match m with
  | Return _ => []
  | ExistsSync path k => path :: probes disk (k (disk path))
  end.

(** ** [src/renderer/versions.ts] *)

(** The comparator of [getDefaultVersion]:
    [(a, b) => -semver.compare(a!, b!)]. *)
Definition newestFirst (a b : option semver.SemVer) : result number :=
  c <- semver.compare a b ;; Ok (Num (- c)).

(** [getDefaultVersion] past its first [return]: the newest stable
    release. *)
Definition latestStableVersion (versions : list RunnableVersion) : result string :=
  sorted <- JSArray.sort newestFirst
              (map (fun ver : RunnableVersion => semver.parse (version ver))
                 (filter (fun ver : RunnableVersion => negb (includes "-" (version ver)))
                    versions)) ;;
  match JSArray.shift sorted with
  | Some (Some latestStable) => Ok (semver.version latestStable)
  | _ => Throw (Error "Corrupted version data")
  end.

Definition getDefaultVersion (localStorage : LocalStorage)
    (versions : list RunnableVersion) : result string :=
  match ls_version localStorage with
  | Some key =>
      if truthy key && existsb (fun v : RunnableVersion => String.eqb (version v) key) versions
      then Ok key
      else latestStableVersion versions
  | None => latestStableVersion versions
  end.

Definition getReleaseChannel (input : Version + string) : ElectronReleaseChannel.t :=
  let tag :=
    match input with
    | inr s => s
    | inl v => if truthy (version v) then version v else ""
    end in
  if includes "beta" tag || includes "alpha" tag then ElectronReleaseChannel.beta
  else if includes "nightly" tag then ElectronReleaseChannel.nightly
  else ElectronReleaseChannel.stable.

Definition saveVersions (key : VersionKeys.t) (versions : list Entry) : M unit :=
  let stringified := JSON_stringify versions in
  setItem key stringified.

Definition isElectronVersion (input : Entry) : bool :=
  match entry_source input with
  | Some _ => true
  | None => false
  end.

(** The filter of [saveLocalVersions]. *)
Definition keptLocally (v : Entry) : bool :=
  if isElectronVersion v then
    match entry_source v with
    | Some s => VersionSource.eqb s VersionSource.local
    | None => false
    end
  else true.

Definition saveLocalVersions (versions : list Entry) : M unit :=
  let filteredVersions := filter keptLocally versions in
  saveVersions VersionKeys.local filteredVersions.

Definition isExpectedFormat (input : list Entry) : bool :=
  forallb (fun entry => truthyOpt (entry_version entry)) input.

(** Every element of the array is an object, so the first filter,
    [item => !!item], keeps them all. *)
Definition migrateVersions (input : list Entry) : list Entry :=
  compact
    (map (fun item =>
            let tag_name := entry_tag_name item in
            let name := entry_name item in
            let url := entry_url item in
            if negb (truthyOpt tag_name) || negb (truthyOpt name) || negb (truthyOpt url)
            then None
            else Some {| entry_version := tag_name;
                         entry_name := name;
                         entry_localPath := url;
                         entry_source := None;
                         entry_state := None;
                         entry_tag_name := None;
                         entry_url := None |})
       (filter (fun _ => true) input)).

Definition getVersions (key : VersionKeys.t) (fallbackMethod : unit -> list Entry)
  : M (list Entry) :=
  fromLs <~ getItem key ;;
  match fromLs with
  | Some text =>
      if truthyItem text then
        tryCatch
          (result <~ JSON_parse text ;;
           if negb (isExpectedFormat result) then
             match key with
             | VersionKeys.known =>
                 throw (Error "Electron versions in LS does not match expected format")
             | VersionKeys.local =>
                 let result := migrateVersions result in
                 _ <~ saveLocalVersions result ;;
                 ret result
             end
           else ret result)
          (fun _ => ret (fallbackMethod tt))
      else ret (fallbackMethod tt)
  | None => ret (fallbackMethod tt)
  end.

Definition getLocalVersions : M (list Entry) :=
  getVersions VersionKeys.local (fun _ => []).

Definition addLocalVersion (input : Version) : M (list Entry) :=
  versions <~ getLocalVersions ;;
  let versions :=
    match find (fun v => optEqb (entry_localPath v) (localPath input)) versions with
    | Some _ => versions
    | None => (versions ++ [entryOfVersion input])%list
    end in
  _ <~ saveLocalVersions versions ;;
  ret versions.

Definition getLocalVersionForPath (folderPath : string) : M (option Entry) :=
  versions <~ getLocalVersions ;;
  ret (find (fun v => optEqb (entry_localPath v) (Some folderPath)) versions).

Section Collaborators.

(** [Installer.getExecPath] of [@electron/fiddle-core]: where the
    executable lies under a folder, by platform. *)
Variable getExecPath : string -> string.

(** [normalizeVersion] of [src/utils/normalize-version]. *)
Variable normalizeVersion : string -> string.

Definition getVersionState (ver : Version) : FS InstallState.t :=
  match localPath ver with
  | Some localPath =>
      let dir := getExecPath localPath in
      ExistsSync dir (fun present =>
        Return (if present then InstallState.installed else InstallState.missing))
  | None => Return InstallState.missing
  end.

Definition makeRunnable (ver : Version) : FS RunnableVersion :=
  fsBind (getVersionState ver) (fun st =>
    Return {| ver := {| version := normalizeVersion (version ver);
                        name := name ver;
                        localPath := localPath ver |};
              source := if truthyOpt (localPath ver) then VersionSource.local
                        else VersionSource.remote;
              state := st |}).

End Collaborators.

(** [getReleasedVersions], given what [getKnownVersions] answers. *)
Definition getReleasedVersions (knownVersions : list string) : list Version :=
  map (fun version => {| version := version; name := None; localPath := None |})
    knownVersions.

(** [parseInt(process.env.NUM_STABLE_BRANCHES || '') || 4].  The count
    is only ever handed to [slice], which clamps its start to the array:
    an infinite count acts as any count beyond every length, and is kept
    as 2^1024 with its sign. *)
Definition NUM_BRANCHES (NUM_STABLE_BRANCHES : option string) : Z :=
  let text :=
    match NUM_STABLE_BRANCHES with
    | Some s => if truthy s then s else ""
    | None => ""
    end in
  match JSNumber.parseInt text with
  | NaN => 4
  | Num 0 => 4
  | Num n => n
  | Infinity negative => if negative then - 2 ^ 1024 else 2 ^ 1024
  end.

Definition getOldestSupportedMajor (NUM_STABLE_BRANCHES : option string)
    (knownVersions : list string) : result (option number) :=
  sorted <- JSArray.sort (fun a b => Ok (JSNumber.sub a b))
              (map (fun ver => JSNumber.parseInt (version ver))
                 (filter (fun ver => endsWith ".0.0" (version ver))
                    (getReleasedVersions knownVersions))) ;;
  Ok (JSArray.shift (JSArray.slice (- NUM_BRANCHES NUM_STABLE_BRANCHES) sorted)).


(** ** [src/renderer/versions.ts], the rest *)

(** [`${n}`] for an integer of magnitude below 10^21, where the text is
    the decimal digits; from 10^21 on the language prints an exponent,
    which is not modelled. *)
Definition Number_toString (n : Z) : string :=
  if n <? 0 then "-" ++ semver.toString (- n) else semver.toString n.

(** [isReleasedMajor], given what [getKnownVersions] answers, for a
    [major] that is an integer. *)
Definition isReleasedMajor (major : Z) (knownVersions : list string) : bool :=
  let prefix := Number_toString major ++ "." in
  existsb (fun ver => startsWith prefix (version ver))
    (getReleasedVersions knownVersions).

(** An element of the array [getLocalVersions] returns, read as the
    [Version] its type says it is.  [getLocalVersions] only returns
    elements with a [version]; the empty string stands for one without. *)
Definition asVersion (e : Entry) : Version :=
  {| version := match entry_version e with Some v => v | None => "" end;
     name := entry_name e;
     localPath := entry_localPath e |}.

(** [array.map(f)] for an [f] that asks about the disk. *)
Fixpoint mapFS {A B : Type} (f : A -> FS B) (l : list A) : FS (list B) :=
  match l with
  | [] => Return []
  | a :: l' => fsBind (f a) (fun b => fsBind (mapFS f l') (fun bs => Return (b :: bs)))
  end.

(** [getElectronVersions], given what [getKnownVersions] answers: the
    store is read first, the disk is asked while the array is mapped. *)
Definition getElectronVersions (getExecPath normalizeVersion : string -> string)
    (knownVersions : list string) : M (FS (list RunnableVersion)) :=
  localVersions <~ getLocalVersions ;;
  let versions := (getReleasedVersions knownVersions ++ map asVersion localVersions)%list in
  ret (mapFS (fun ver => makeRunnable getExecPath normalizeVersion ver) versions).

(** * Vocabulary of the properties *)

(** Containment as the specification words it. *)
Definition contains (search s : string) : Prop :=
  exists pre post, s = pre ++ search ++ post.

(** A release version as the constructor builds it: no prerelease part,
    components that are not negative, and the canonical text. *)
Definition release (v : semver.SemVer) : Prop :=
  semver.prerelease v = [] /\
  0 <= semver.major v /\ 0 <= semver.minor v /\ 0 <= semver.patch v /\
  semver.version v =
    semver.format (semver.major v) (semver.minor v) (semver.patch v) [].

(** The order of release versions: by major, then minor, then patch. *)
Definition cmpZ (a b : Z) : Z :=
  if a =? b then 0 else if a <? b then -1 else 1.

Definition lex3 (a1 a2 a3 b1 b2 b3 : Z) : Z :=
  semver.orElse (cmpZ a1 b1) (semver.orElse (cmpZ a2 b2) (cmpZ a3 b3)).

(** [a] may stand before [b] when the newest comes first. *)
Definition notOlder (a b : semver.SemVer) : Prop :=
  0 <= semver.SemVer_compare a b.

Definition releaseNotOlder (a b : semver.SemVer) : Prop :=
  release a /\ release b /\ notOlder a b.

(** The comparator of [getDefaultVersion] on versions that parsed. *)
Definition newestFirst' (a b : semver.SemVer) : result number :=
  Ok (Num (- semver.SemVer_compare a b)).

(** A candidate as the specification's examples write it,
    [{version: v}]. *)
Definition candidate (v : string) : RunnableVersion :=
  {| ver := {| version := v; name := None; localPath := None |};
     source := VersionSource.remote;
     state := InstallState.missing |}.

(** No stored preference is the version of a candidate. *)
Definition noPreference (localStorage : LocalStorage)
    (versions : list RunnableVersion) : Prop :=
  forall key v, ls_version localStorage = Some key -> In v versions -> version v <> key.

Definition hyphenFree (v : RunnableVersion) : bool :=
  negb (includes "-" (version v)).

(** A Linux layout for the examples: [path.join(folder, 'electron')] for
    a folder that [path.join] leaves as it is (empty, or an absolute path
    without a trailing separator, dots or doubled separators). *)
Definition linuxExecPath (folder : string) : string :=
  if truthy folder then folder ++ "/electron" else "electron".

(** The comparator of [getOldestSupportedMajor] on numbers that are not
    NaN. *)
Definition ascending' (a b : Z) : result number := Ok (Num (a - b)).

(** Saving an array under the local key, then loading that key. *)
Definition saveAndReload (versions : list (Version + RunnableVersion)) : M (list Entry) :=
  _ <~ saveLocalVersions (map entryOf versions) ;;
  getLocalVersions.

Definition versionOf (v : Version + RunnableVersion) : string :=
  match v with
  | inl p => version p
  | inr r => version r
  end.

(** The source derived from [localPath], as [makeRunnable] derives it, is
    local. *)
Definition derivedLocal (v : Version + RunnableVersion) : bool :=
  match v with
  | inl p => truthyOpt (localPath p)
  | inr r => truthyOpt (localPath r)
  end.

(** A plain [Version], or a [RunnableVersion] whose [source] is local. *)
Definition plainOrLocal (v : Version + RunnableVersion) : bool :=
  match v with
  | inl _ => true
  | inr r => VersionSource.eqb (source r) VersionSource.local
  end.

(** The store with the local key set. *)
Definition withLocal (localStorage : LocalStorage) (value : Item) : LocalStorage :=
  {| ls_version := ls_version localStorage;
     ls_local := Some value;
     ls_known := ls_known localStorage |}.

(** The object [migrateVersions] makes of a legacy entry. *)
Definition migrated (tag_name name url : string) : Entry :=
  {| entry_version := Some tag_name;
     entry_name := Some name;
     entry_localPath := Some url;
     entry_source := None;
     entry_state := None;
     entry_tag_name := None;
     entry_url := None |}.

(** An entry in the format used before 0.5, complete. *)
Definition legacy (e : Entry) : bool :=
  truthyOpt (entry_tag_name e) && truthyOpt (entry_name e) && truthyOpt (entry_url e).

(** What [getItem(key)] finds. *)
Definition itemAt (key : VersionKeys.t) (localStorage : LocalStorage) : option Item :=
  match key with
  | VersionKeys.local => ls_local localStorage
  | VersionKeys.known => ls_known localStorage
  end.

(** A store with nothing in it. *)
Definition emptyStorage : LocalStorage :=
  {| ls_version := None; ls_local := None; ls_known := None |}.

(** The array [getLocalVersions] returns from a store. *)
Definition loadedLocal (localStorage : LocalStorage) : list Entry :=
  match fst (getLocalVersions localStorage) with
  | Ok versions => versions
  | Throw _ => []
  end.

(** Two stores agree on the stored preference and on the known versions. *)
Definition sameOtherKeys (before after : LocalStorage) : Prop :=
  ls_version after = ls_version before /\ ls_known after = ls_known before.

(** The characters of a canonical release version: digits and dots. *)
Definition isDigitOrDot (c : ascii) : bool := isDigit c || Ascii.eqb c ".".

(** A version string that is the canonical text of the semantic version
    it parses to. *)
Definition canonical (v : string) : Prop :=
  exists sv, semver.parse v = Some sv /\ semver.version sv = v.

(** The local paths of the entries that have one, in order. *)
Definition localPaths (entries : list Entry) : list string :=
  compact (map entry_localPath entries).

(** [getDefaultVersion] on the version strings of the candidates alone. *)
Definition defaultOfStrings (key : option string) (versions : list string) : result string :=
  let stable :=
    sorted <- JSArray.sort newestFirst
                (map semver.parse (filter (fun v => negb (includes "-" v)) versions)) ;;
    match JSArray.shift sorted with
    | Some (Some latestStable) => Ok (semver.version latestStable)
    | _ => Throw (Error "Corrupted version data")
    end in
  match key with
  | Some k => if truthy k && existsb (fun v => String.eqb v k) versions then Ok k else stable
  | None => stable
  end.

(** [array[i]] for an integer index: [undefined] outside the array. *)
Definition elementAt (l : list Z) (i : Z) : option Z :=
  if i <? 0 then None else nth_error l (Z.to_nat i).

(** [a] is not older than [b]: by major, then minor, then patch. *)
Definition newerOrSame (a b : semver.SemVer) : Prop :=
  semver.major b < semver.major a \/
  (semver.major a = semver.major b /\
   (semver.minor b < semver.minor a \/
    (semver.minor a = semver.minor b /\ semver.patch b <= semver.patch a))).

(** The text [major.minor.patch] of a version. *)
Definition releaseText (v : semver.SemVer) : string :=
  semver.toString (semver.major v) ++ "." ++ semver.toString (semver.minor v)
  ++ "." ++ semver.toString (semver.patch v).

(** * Properties *)

(** ** Strings *)

Lemma append_assoc (a b c : string) : (a ++ b) ++ c = a ++ (b ++ c).
Proof.
  induction a as [|ch a IH]; simpl; [reflexivity|].
  now rewrite IH.
Qed.

Lemma append_nil_r (a : string) : a ++ "" = a.
Proof.
  induction a as [|ch a IH]; simpl; [reflexivity|].
  now rewrite IH.
Qed.

Lemma startsWith_spec (search s : string) :
  startsWith search s = true <-> exists post, s = search ++ post.
Proof.
  unfold startsWith.
  revert s; induction search as [|c t IH]; intros s; simpl.
  - split; [intros _; now exists s | destruct s; reflexivity].
  - destruct s as [|d s]; simpl.
    + split; [discriminate | intros [post H]; discriminate].
    + destruct (Ascii.ascii_dec c d) as [->|Hcd].
      * rewrite IH. split; intros [post H]; exists post.
        -- now rewrite H.
        -- now inversion H.
      * split; [discriminate|].
        intros [post H]. inversion H. congruence.
Qed.

Lemma includes_spec (search s : string) :
  includes search s = true <-> contains search s.
Proof.
  unfold contains.
  induction s as [|c s IH]; cbn [includes]; rewrite orb_true_iff, startsWith_spec.
  - split.
    + intros [[post H]|H]; [|discriminate]. now exists "", post.
    + intros [pre [post H]]. left.
      destruct pre; [now exists post | discriminate].
  - rewrite IH. split.
    + intros [[post H]|[pre [post H]]].
      * now exists "", post.
      * exists (String c pre), post. simpl. now rewrite H.
    + intros [pre [post H]].
      destruct pre as [|d pre]; simpl in H.
      * left; now exists post.
      * right. inversion H. now exists pre, post.
Qed.

Lemma endsWith_spec (search s : string) :
  endsWith search s = true <-> exists pre, s = pre ++ search.
Proof.
  induction s as [|c s IH]; cbn [endsWith]; rewrite orb_true_iff, String.eqb_eq.
  - split.
    + intros [H|H]; [|discriminate]. now exists "".
    + intros [pre H]. left.
      destruct pre; [assumption | discriminate].
  - rewrite IH. split.
    + intros [H|[pre H]].
      * now exists "".
      * exists (String c pre). simpl. now rewrite H.
    + intros [pre H].
      destruct pre as [|d pre]; simpl in H.
      * now left.
      * right. inversion H. now exists pre.
Qed.

Lemma contains_suffix (search p s : string) :
  contains search s -> contains search (p ++ s).
Proof.
  intros [pre [post H]]. exists (p ++ pre), post.
  now rewrite H, append_assoc.
Qed.

Lemma contains_prefix (search s q : string) :
  contains search s -> contains search (s ++ q).
Proof.
  intros [pre [post H]]. exists pre, (post ++ q).
  now rewrite H, !append_assoc.
Qed.

Lemma span_append (p : ascii -> bool) (s a b : string) :
  span p s = (a, b) -> s = a ++ b.
Proof.
  revert a b; induction s as [|c s IH]; simpl; intros a b H.
  - now inversion H.
  - destruct (p c).
    + destruct (span p s) as [a' b'] eqn:E. inversion H; subst.
      simpl. now rewrite (IH a' b).
    + now inversion H.
Qed.

Lemma span_all (p : ascii -> bool) (s a b : string) :
  span p s = (a, b) -> all p a = true.
Proof.
  revert a b; induction s as [|c s IH]; simpl; intros a b H.
  - now inversion H.
  - destruct (p c) eqn:Hc.
    + destruct (span p s) as [a' b'] eqn:E. inversion H; subst.
      simpl. rewrite Hc. simpl. now apply (IH a' b).
    + now inversion H.
Qed.

Lemma trimStart_suffix (s : string) : exists w, s = w ++ trimStart s.
Proof.
  induction s as [|c s [w IH]]; simpl.
  - now exists "".
  - destruct (isWhiteSpace c).
    + exists (String c w). simpl. now rewrite <- IH.
    + now exists "".
Qed.

Lemma trimEnd_prefix (s : string) : exists w, s = trimEnd s ++ w.
Proof.
  unfold trimEnd.
  assert (H : forall r, trimEnd_aux s = Some r -> exists w, s = r ++ w).
  { induction s as [|c s IH]; simpl; intros r Hr; [discriminate|].
    destruct (trimEnd_aux s) as [r'|].
    - inversion Hr; subst. destruct (IH r' eq_refl) as [w Hw].
      exists w. simpl. now rewrite <- Hw.
    - destruct (isWhiteSpace c); [discriminate|].
      inversion Hr; subst. now exists s. }
  destruct (trimEnd_aux s) as [r|].
  - now apply H.
  - now exists s.
Qed.

Lemma contains_trim (search s : string) :
  contains search (trim s) -> contains search s.
Proof.
  unfold trim. intros H.
  destruct (trimStart_suffix s) as [w1 H1].
  destruct (trimEnd_prefix (trimStart s)) as [w2 H2].
  rewrite H1, H2. now apply contains_suffix, contains_prefix.
Qed.

Lemma truthy_true (s : string) : truthy s = true <-> s <> "".
Proof.
  unfold truthy. rewrite negb_true_iff. apply String.eqb_neq.
Qed.

(** ** Sorting *)

Section SortFacts.
Context {A : Type}.
Variable cmp : A -> A -> result number.

Lemma insert_perm (x : A) (l r : list A) :
  JSArray.insert cmp x l = Ok r -> Permutation (x :: l) r.
Proof.
  revert r; induction l as [|y l IH]; simpl; intros r H.
  - inversion H. apply Permutation_refl.
  - destruct (cmp x y) as [v|e]; simpl in H; [|discriminate].
    destruct (JSArray.after v).
    + destruct (JSArray.insert cmp x l) as [r'|e]; simpl in H; [|discriminate].
      inversion H; subst.
      eapply perm_trans; [apply perm_swap|].
      apply perm_skip. now apply IH.
    + inversion H. apply Permutation_refl.
Qed.

Lemma sort_perm (l r : list A) :
  JSArray.sort cmp l = Ok r -> Permutation l r.
Proof.
  revert r; induction l as [|x l IH]; simpl; intros r H.
  - inversion H. apply perm_nil.
  - destruct (JSArray.sort cmp l) as [s|e]; simpl in H; [|discriminate].
    eapply perm_trans; [apply perm_skip, IH; reflexivity|].
    now apply insert_perm.
Qed.

(** The sort throws only what the comparator throws. *)
Lemma insert_throw (x : A) (l : list A) (e : exn) :
  JSArray.insert cmp x l = Throw e -> exists a b, cmp a b = Throw e.
Proof.
  induction l as [|y l IH]; simpl; intros H; [discriminate|].
  destruct (cmp x y) as [v|e'] eqn:E; simpl in H.
  - destruct (JSArray.after v); [|discriminate].
    destruct (JSArray.insert cmp x l) as [r'|e'']; simpl in H; [discriminate|].
    inversion H; subst. now apply IH.
  - inversion H; subst. now exists x, y.
Qed.

Lemma sort_throw (l : list A) (e : exn) :
  JSArray.sort cmp l = Throw e -> exists a b, cmp a b = Throw e.
Proof.
  induction l as [|x l IH]; simpl; intros H; [discriminate|].
  destruct (JSArray.sort cmp l) as [s|e']; simpl in H.
  - now apply insert_throw in H.
  - inversion H; subst. now apply IH.
Qed.

(** In an array of two or more that was sorted, the comparator answered
    for every element. *)
Lemma sort_compared (l r : list A) :
  JSArray.sort cmp l = Ok r -> (2 <= length l)%nat ->
  forall x, In x l -> exists y v, cmp x y = Ok v \/ cmp y x = Ok v.
Proof.
  revert r; induction l as [|x l IH]; simpl; intros r H Hlen z Hz; [lia|].
  destruct (JSArray.sort cmp l) as [s|e] eqn:Es; simpl in H; [|discriminate].
  pose proof (sort_perm _ _ Es) as Hp.
  destruct s as [|y s].
  { apply Permutation_sym, Permutation_nil in Hp. subst l. simpl in Hlen. lia. }
  simpl in H. destruct (cmp x y) as [v|e] eqn:Exy; simpl in H; [|discriminate].
  destruct Hz as [->|Hz]; [now exists y, v; left|].
  destruct l as [|a [|b l]].
  - contradiction.
  - simpl in Es. inversion Es; subst. destruct Hz as [->|[]].
    exists x, v. now right.
  - apply (IH (y :: s) eq_refl); [simpl; lia | assumption].
Qed.

Section Sorted.
Variable P : A -> Prop.
Variable R : A -> A -> Prop.
Hypothesis cmp_decides :
  forall x y, P x -> P y ->
    exists v, cmp x y = Ok v /\ (if JSArray.after v then R y x else R x y).

Lemma insert_sorted (l : list A) (x : A) :
  P x -> Forall P l -> Sorted R l ->
  exists r, JSArray.insert cmp x l = Ok r /\ Sorted R r /\
            forall a, R a x -> HdRel R a l -> HdRel R a r.
Proof.
  intros Px. induction l as [|y l IH]; intros HP HS; simpl.
  - exists [x]. repeat split; auto.
  - inversion HP as [|? ? Py HPl]; subst.
    inversion HS as [|? ? HSl Hhd]; subst.
    destruct (cmp_decides x y Px Py) as [v [-> Hv]]. simpl.
    destruct (JSArray.after v).
    + destruct (IH HPl HSl) as [r' [-> [Hs' Hh']]]. simpl.
      exists (y :: r'). repeat split; auto.
      intros a _ Ha. inversion Ha; subst. now constructor.
    + exists (x :: y :: l). repeat split; auto.
Qed.

Lemma sort_sorted (l : list A) :
  Forall P l ->
  exists r, JSArray.sort cmp l = Ok r /\ Sorted R r /\ Permutation l r.
Proof.
  induction l as [|x l IH]; intros HP; simpl.
  - exists []. repeat split; auto.
  - inversion HP as [|? ? Px HPl]; subst.
    destruct (IH HPl) as [s [Es [Hs Hp]]]. rewrite Es. simpl.
    assert (HPs : Forall P s) by (eapply Permutation_Forall; eassumption).
    destruct (insert_sorted s x Px HPs Hs) as [r [Er [Hr _]]].
    exists r. repeat split; auto.
    eapply perm_trans; [apply perm_skip, Hp|].
    now apply (insert_perm x s r).
Qed.
End Sorted.

End SortFacts.

Lemma insert_map {A B : Type} (f : B -> A)
    (cmp : A -> A -> result number) (cmp' : B -> B -> result number) :
  (forall x y, cmp (f x) (f y) = cmp' x y) ->
  forall x l,
    JSArray.insert cmp (f x) (map f l) = (r <- JSArray.insert cmp' x l ;; Ok (map f r)).
Proof.
  intros Hc x l. induction l as [|y l IH]; simpl; [reflexivity|].
  rewrite Hc. destruct (cmp' x y) as [v|e]; simpl; [|reflexivity].
  destruct (JSArray.after v); [|reflexivity].
  rewrite IH. now destruct (JSArray.insert cmp' x l).
Qed.

Lemma sort_map {A B : Type} (f : B -> A)
    (cmp : A -> A -> result number) (cmp' : B -> B -> result number) :
  (forall x y, cmp (f x) (f y) = cmp' x y) ->
  forall l,
    JSArray.sort cmp (map f l) = (r <- JSArray.sort cmp' l ;; Ok (map f r)).
Proof.
  intros Hc l. induction l as [|x l IH]; simpl; [reflexivity|].
  rewrite IH. destruct (JSArray.sort cmp' l) as [s|e]; simpl; [|reflexivity].
  now apply insert_map.
Qed.

Lemma StronglySorted_weaken {A : Type} (R R' : A -> A -> Prop) (l : list A) :
  (forall x y, R x y -> R' x y) -> StronglySorted R l -> StronglySorted R' l.
Proof.
  intros HR. induction 1 as [|a l Hl IH Hall]; constructor; auto.
  eapply Forall_impl; [|exact Hall]. auto.
Qed.

(** ** Semantic versions *)

Lemma numericIdentifier_append (s d rest : string) :
  semver.numericIdentifier s = Some (d, rest) -> s = d ++ rest.
Proof.
  unfold semver.numericIdentifier.
  destruct (span isDigit s) as [a b] eqn:E.
  apply span_append in E. intros H.
  destruct a as [|c [|c' a]]; [discriminate| |].
  - now inversion H; subst.
  - destruct (Ascii.eqb c "0"); [discriminate|]. now inversion H; subst.
Qed.

Lemma expect_append (c : ascii) (s r : string) :
  semver.expect c s = Some r -> s = String c r.
Proof.
  destruct s as [|c' s]; simpl; [discriminate|].
  destruct (Ascii.eqb_spec c' c); [|discriminate].
  intros H. now inversion H; subst.
Qed.

Lemma tail_prerelease (s pre : string) (m5 : option string) :
  semver.tail s = Some (Some pre, m5) -> contains "-" s.
Proof.
  destruct s as [|c r]; simpl; [discriminate|].
  destruct (Ascii.eqb_spec c "-") as [->|_].
  - intros _. now exists "", r.
  - destruct (Ascii.eqb c "+"); [|discriminate].
    destruct (forallb _ _); discriminate.
Qed.

(** A match with a prerelease group has a hyphen in it. *)
Lemma FULL_prerelease (s m1 m2 m3 pre : string) (m5 : option string) :
  semver.FULL s = Some (m1, m2, m3, Some pre, m5) -> contains "-" s.
Proof.
  unfold semver.FULL.
  set (s0 := match s with String c r => if Ascii.eqb c "v" then r else s | EmptyString => s end).
  assert (Hs0 : exists w, s = w ++ s0).
  { subst s0. destruct s as [|c r]; [now exists ""|].
    destruct (Ascii.eqb c "v"); [now exists (String c "") | now exists ""]. }
  clearbody s0. destruct Hs0 as [w ->].
  destruct (semver.numericIdentifier s0) as [[d1 s1]|] eqn:E1; [|discriminate].
  destruct (semver.expect "." s1) as [s1'|] eqn:X1; [|discriminate].
  destruct (semver.numericIdentifier s1') as [[d2 s2]|] eqn:E2; [|discriminate].
  destruct (semver.expect "." s2) as [s2'|] eqn:X2; [|discriminate].
  destruct (semver.numericIdentifier s2') as [[d3 s3]|] eqn:E3; [|discriminate].
  destruct (semver.tail s3) as [[m4 m5']|] eqn:T; [|discriminate].
  intros H. inversion H; subst.
  apply tail_prerelease in T.
  apply numericIdentifier_append in E1, E2, E3.
  apply expect_append in X1, X2.
  subst s0 s1 s1' s2 s2'.
  apply contains_suffix, contains_suffix.
  apply (contains_suffix "-" (String "." "")).
  apply contains_suffix. apply (contains_suffix "-" (String "." "")).
  now apply contains_suffix.
Qed.

(** What [semver.parse] makes of a string without a hyphen is a release. *)
Lemma parse_release (s : string) (v : semver.SemVer) :
  includes "-" s = false -> semver.parse s = Some v -> release v.
Proof.
  intros Hh. unfold semver.parse, semver.new_SemVer.
  destruct (semver.MAX_LENGTH <? String.length s)%nat; [discriminate|].
  destruct (semver.FULL (trim s)) as [[[[[m1 m2] m3] m4] m5]|] eqn:F; [|discriminate].
  destruct m4 as [pre|].
  { apply FULL_prerelease, contains_trim, includes_spec in F. congruence. }
  destruct (_ || _) eqn:B1; [discriminate|].
  destruct (_ || _) eqn:B2 in |- *; [discriminate|].
  destruct (_ || _) eqn:B3 in |- *; [discriminate|].
  intros H. inversion H; subst; clear H. unfold release; simpl.
  apply orb_false_iff in B1, B2, B3.
  destruct B1 as [_ B1], B2 as [_ B2], B3 as [_ B3].
  apply Z.ltb_ge in B1, B2, B3. repeat split; auto.
Qed.

Lemma string_of_uint_digits (d : Decimal.uint) :
  all isDigit (NilEmpty.string_of_uint d) = true.
Proof. induction d; simpl; auto. Qed.

Lemma toString_digits (n : Z) : all isDigit (semver.toString n) = true.
Proof.
  unfold semver.toString, NilZero.string_of_uint.
  destruct (N.to_uint (Z.to_N n)) eqn:E; try reflexivity;
    rewrite <- E at 1; apply string_of_uint_digits.
Qed.

Lemma string_of_uint_value (d : Decimal.uint) :
  option_map N.of_uint (NilZero.uint_of_string (NilZero.string_of_uint d))
  = Some (N.of_uint d).
Proof.
  destruct d; try (rewrite NilZero.usu by discriminate; reflexivity).
  now rewrite NilZero.usu_nil.
Qed.

Lemma toString_inj (a b : Z) :
  0 <= a -> 0 <= b -> semver.toString a = semver.toString b -> a = b.
Proof.
  unfold semver.toString. intros Ha Hb H.
  apply (f_equal (fun s => option_map N.of_uint (NilZero.uint_of_string s))) in H.
  rewrite !string_of_uint_value, !DecimalN.Unsigned.of_to in H.
  inversion H. now apply Z2N.inj.
Qed.

Lemma digits_dot_split (d1 d2 r1 r2 : string) :
  all isDigit d1 = true -> all isDigit d2 = true ->
  d1 ++ String "." r1 = d2 ++ String "." r2 -> d1 = d2 /\ r1 = r2.
Proof.
  revert d2; induction d1 as [|c d1 IH]; intros [|c' d2]; simpl; intros H1 H2 H.
  - now inversion H.
  - inversion H; subst. discriminate.
  - inversion H; subst. discriminate.
  - apply andb_true_iff in H1, H2. inversion H; subst.
    destruct (IH d2) as [-> ->]; tauto.
Qed.

Lemma format_inj (a b c a' b' c' : Z) :
  0 <= a -> 0 <= b -> 0 <= c -> 0 <= a' -> 0 <= b' -> 0 <= c' ->
  semver.format a b c [] = semver.format a' b' c' [] ->
  a = a' /\ b = b' /\ c = c'.
Proof.
  unfold semver.format. simpl. intros Ha Hb Hc Ha' Hb' Hc' H.
  apply digits_dot_split in H; try apply toString_digits.
  destruct H as [H1 H].
  apply digits_dot_split in H; try apply toString_digits.
  destruct H as [H2 H3].
  repeat split; now apply toString_inj.
Qed.

Lemma lex3_nonneg (a1 a2 a3 b1 b2 b3 : Z) :
  0 <= lex3 a1 a2 a3 b1 b2 b3 <->
  b1 < a1 \/ (a1 = b1 /\ (b2 < a2 \/ (a2 = b2 /\ b3 <= a3))).
Proof.
  unfold lex3, semver.orElse, cmpZ.
  destruct (Z.eqb_spec a1 b1), (Z.ltb_spec a1 b1),
    (Z.eqb_spec a2 b2), (Z.ltb_spec a2 b2),
    (Z.eqb_spec a3 b3), (Z.ltb_spec a3 b3); simpl; lia.
Qed.

Lemma lex3_refl (a1 a2 a3 : Z) : lex3 a1 a2 a3 a1 a2 a3 = 0.
Proof. unfold lex3, cmpZ. now rewrite !Z.eqb_refl. Qed.

Lemma compare_release (x y : semver.SemVer) :
  release x -> release y ->
  semver.SemVer_compare x y =
    lex3 (semver.major x) (semver.minor x) (semver.patch x)
         (semver.major y) (semver.minor y) (semver.patch y).
Proof.
  intros (Px & X1 & X2 & X3 & Vx) (Py & Y1 & Y2 & Y3 & Vy).
  unfold semver.SemVer_compare.
  destruct (String.eqb_spec (semver.version y) (semver.version x)) as [E|E].
  - rewrite Vx, Vy in E. apply format_inj in E; auto.
    destruct E as (-> & -> & ->). now rewrite lex3_refl.
  - unfold semver.comparePre. rewrite Px, Py.
    unfold semver.orElse at 1.
    destruct (Z.eqb_spec (semver.compareMain x y) 0) as [E0|E0]; [now rewrite <- E0|].
    reflexivity.
Qed.

Lemma releaseNotOlder_trans : Relations_1.Transitive releaseNotOlder.
Proof.
  intros x y z (Rx & Ry & Hxy) (_ & Rz & Hyz).
  split; [exact Rx | split; [exact Rz|]]. unfold notOlder in *.
  rewrite (compare_release x y Rx Ry), lex3_nonneg in Hxy.
  rewrite (compare_release y z Ry Rz), lex3_nonneg in Hyz.
  rewrite (compare_release x z Rx Rz), lex3_nonneg. lia.
Qed.

Lemma newestFirst_Some (a b : semver.SemVer) :
  newestFirst (Some a) (Some b) = newestFirst' a b.
Proof. reflexivity. Qed.

Lemma newestFirst_decides (x y : semver.SemVer) :
  release x -> release y ->
  exists v, newestFirst' x y = Ok v /\
            (if JSArray.after v then releaseNotOlder y x else releaseNotOlder x y).
Proof.
  intros Rx Ry. eexists; split; [reflexivity|].
  unfold JSArray.after, releaseNotOlder, notOlder.
  destruct (Z.ltb_spec 0 (- semver.SemVer_compare x y)) as [H|H];
    (split; [assumption | split; [assumption|]]).
  - rewrite (compare_release y x Ry Rx), lex3_nonneg.
    assert (H' : ~ 0 <= semver.SemVer_compare x y) by lia.
    rewrite (compare_release x y Rx Ry), lex3_nonneg in H'. lia.
  - lia.
Qed.

(** ** The default version *)

Lemma noPreference_latestStable (localStorage : LocalStorage)
    (versions : list RunnableVersion) :
  noPreference localStorage versions ->
  getDefaultVersion localStorage versions = latestStableVersion versions.
Proof.
  unfold noPreference, getDefaultVersion. intros H.
  destruct (ls_version localStorage) as [key|]; [|reflexivity].
  destruct (existsb _ versions) eqn:E.
  - apply existsb_exists in E. destruct E as [v [Hin Hv]].
    apply String.eqb_eq in Hv. now destruct (H key v eq_refl Hin).
  - now rewrite andb_false_r.
Qed.

Lemma parsed_releases (versions : list RunnableVersion) (stable : list semver.SemVer) :
  map (fun v : RunnableVersion => semver.parse (version v)) (filter hyphenFree versions)
  = map Some stable ->
  Forall release stable.
Proof.
  intros H. apply Forall_forall. intros sv Hsv.
  apply (in_map Some) in Hsv. rewrite <- H in Hsv.
  apply in_map_iff in Hsv. destruct Hsv as [v [Hp Hv]].
  apply filter_In in Hv. destruct Hv as [_ Hv].
  unfold hyphenFree in Hv. apply negb_true_iff in Hv.
  now apply (parse_release (version v)).
Qed.

(** C3, as amended: for every candidate list and every non-empty stored
    preference string that equals some candidate's version field,
    [getDefaultVersion] returns that string verbatim, whatever else the
    list holds, a newer stable candidate included. *)
Theorem C3_stored_preference_returned :
  forall (localStorage : LocalStorage) (versions : list RunnableVersion) (key : string),
    ls_version localStorage = Some key ->
    key <> "" ->
    (exists v, In v versions /\ version v = key) ->
    getDefaultVersion localStorage versions = Ok key.
Proof.
  intros localStorage versions key Hk Hne [v [Hin Hv]].
  unfold getDefaultVersion. rewrite Hk.
  apply truthy_true in Hne. rewrite Hne. simpl.
  assert (E : existsb (fun v : RunnableVersion => (version v =? key)%string) versions = true).
  { apply existsb_exists. exists v. split; [assumption|]. now apply String.eqb_eq. }
  now rewrite E.
Qed.

(** The stored preference "9.0.0" wins over the newer stable "10.0.0". *)
Lemma C3_stored_preference_witness :
  getDefaultVersion
    {| ls_version := Some "9.0.0"; ls_local := None; ls_known := None |}
    [candidate "10.0.0"; candidate "9.0.0"]
  = Ok "9.0.0".
Proof.
  apply C3_stored_preference_returned.
  - reflexivity.
  - discriminate.
  - exists (candidate "9.0.0"). split; [right; left; reflexivity | reflexivity].
Defined.

(** C3, as stated, fails for the empty string: stored as the preference
    and equal to a candidate's version, it is not returned. *)
Lemma C3_empty_preference_counterexample :
  let localStorage := {| ls_version := Some ""; ls_local := None; ls_known := None |} in
  let versions := [candidate ""] in
  ls_version localStorage = Some "" /\
  (exists v, In v versions /\ version v = "") /\
  getDefaultVersion localStorage versions = Throw (Error "Corrupted version data") /\
  getDefaultVersion localStorage versions <> Ok "".
Proof.
  cbv zeta. split; [reflexivity|]. split.
  - exists (candidate ""). split; [left; reflexivity | reflexivity].
  - split; [reflexivity | discriminate].
Qed.

Lemma releaseNotOlder_parts (a b : semver.SemVer) :
  releaseNotOlder a b -> newerOrSame a b.
Proof.
  intros (Ra & Rb & H). unfold notOlder in H.
  rewrite (compare_release a b Ra Rb), lex3_nonneg in H. exact H.
Qed.

(** Sorting release versions newest first orders them by major, then
    minor, then patch, descending. *)
Lemma sort_releases_by_parts (svs : list semver.SemVer) :
  Forall release svs ->
  exists sorted,
    JSArray.sort newestFirst (map Some svs) = Ok (map Some sorted) /\
    Permutation svs sorted /\ StronglySorted newerOrSame sorted.
Proof.
  intros HR.
  destruct (sort_sorted newestFirst' release releaseNotOlder newestFirst_decides svs HR)
    as [sorted [Es [Hs Hp]]].
  exists sorted. split; [|split; [exact Hp|]].
  - rewrite (sort_map Some newestFirst newestFirst' newestFirst_Some), Es.
    reflexivity.
  - apply StronglySorted_weaken with (R := releaseNotOlder).
    + exact releaseNotOlder_parts.
    + apply Sorted_StronglySorted; [exact releaseNotOlder_trans | exact Hs].
Qed.

Lemma release_text (v : semver.SemVer) : release v -> semver.version v = releaseText v.
Proof. intros (_ & _ & _ & _ & H). exact H. Qed.

(** C4, as amended: when no stored preference matches a candidate and
    every candidate whose version has no '-' parses as a semantic
    version, there being at least one, [getDefaultVersion] keeps those
    candidates, sorts them descending by major, then minor, then patch,
    and returns the text major.minor.patch of the first; over 10.0.0,
    11.0.0-beta.1 and 9.0.0 that is "10.0.0". *)
Theorem C4_newest_stable_default :
  (forall (localStorage : LocalStorage) (versions : list RunnableVersion)
          (stable : list semver.SemVer),
      noPreference localStorage versions ->
      map (fun v : RunnableVersion => semver.parse (version v))
          (filter (fun v : RunnableVersion => negb (includes "-" (version v))) versions)
      = map Some stable ->
      stable <> [] ->
      exists newest rest,
        Permutation stable (newest :: rest) /\
        StronglySorted newerOrSame (newest :: rest) /\
        getDefaultVersion localStorage versions = Ok (releaseText newest))
  /\
  getDefaultVersion
    {| ls_version := None; ls_local := None; ls_known := None |}
    [candidate "10.0.0"; candidate "11.0.0-beta.1"; candidate "9.0.0"]
  = Ok "10.0.0".
Proof.
  split; [|reflexivity].
  intros localStorage versions stable Hno Hmap Hne.
  rewrite (noPreference_latestStable _ _ Hno).
  unfold latestStableVersion. rewrite Hmap.
  pose proof (parsed_releases versions stable Hmap) as HR.
  destruct (sort_releases_by_parts stable HR) as [sorted [Es [Hp Hs]]].
  rewrite Es. simpl.
  destruct sorted as [|newest rest].
  - apply Permutation_sym, Permutation_nil in Hp. contradiction.
  - exists newest, rest. split; [exact Hp|]. split; [exact Hs|].
    simpl. f_equal. apply release_text.
    rewrite Forall_forall in HR. apply HR.
    eapply Permutation_in; [apply Permutation_sym, Hp | now left].
Qed.

(** Three stable candidates out of order, beside a prerelease and a
    stored preference that is no candidate: 10.1.0 comes first. *)
Lemma C4_newest_stable_witness :
  exists newest rest,
    Permutation (compact (map semver.parse ["10.0.0"; "9.0.0"; "10.1.0"]))
                (newest :: rest) /\
    StronglySorted newerOrSame (newest :: rest) /\
    getDefaultVersion
      {| ls_version := Some "12.0.0"; ls_local := None; ls_known := None |}
      [candidate "10.0.0"; candidate "11.0.0-beta.1"; candidate "9.0.0"; candidate "10.1.0"]
    = Ok (releaseText newest).
Proof.
  apply (proj1 C4_newest_stable_default).
  - intros key v Hk Hin. inversion Hk; subst.
    destruct Hin as [<-|[<-|[<-|[<-|[]]]]]; discriminate.
  - reflexivity.
  - discriminate.
Defined.

(** C4, as stated, fails: with a candidate without '-' that is no
    semantic version beside a stable one, nothing is sorted or returned;
    the comparator throws. *)
Lemma C4_invalid_candidate_counterexample :
  let localStorage := {| ls_version := None; ls_local := None; ls_known := None |} in
  let versions := [candidate "10.0.0"; candidate "latest"] in
  noPreference localStorage versions /\
  filter (fun v : RunnableVersion => negb (includes "-" (version v))) versions = versions /\
  getDefaultVersion localStorage versions = Throw TypeError /\
  getDefaultVersion localStorage versions <> Ok "10.0.0".
Proof.
  cbv zeta. split; [|split; [reflexivity|split; [reflexivity|discriminate]]].
  intros key v Hk. discriminate.
Qed.

Lemma newestFirst_Ok (a b : option semver.SemVer) (v : number) :
  newestFirst a b = Ok v -> a <> None /\ b <> None.
Proof.
  destruct a, b; simpl; intros H; try discriminate. split; discriminate.
Qed.

Lemma newestFirst_Throw (a b : option semver.SemVer) (e : exn) :
  newestFirst a b = Throw e -> e = TypeError.
Proof.
  destruct a, b; simpl; intros H; inversion H; reflexivity.
Qed.

Lemma two_elements {A : Type} (a b : A) (l : list A) :
  In a l -> In b l -> a <> b -> (2 <= length l)%nat.
Proof.
  destruct l as [|x [|y l]]; simpl; intros Ha Hb Hab.
  - contradiction.
  - destruct Ha as [->|[]], Hb as [->|[]]. contradiction.
  - lia.
Qed.

(** With a valid hyphen-free candidate in the list, the search for the
    newest stable release does not end in "Corrupted version data". *)
Lemma latestStable_not_corrupted (versions : list RunnableVersion) :
  (exists v sv, In v versions /\ includes "-" (version v) = false /\
                semver.parse (version v) = Some sv) ->
  latestStableVersion versions <> Throw (Error "Corrupted version data").
Proof.
  intros [v [sv [Hin [Hh Hp]]]]. unfold latestStableVersion.
  set (L := map _ (filter _ versions)).
  assert (HL : In (Some sv) L).
  { subst L. apply in_map_iff. exists v. split; [assumption|].
    apply filter_In. split; [assumption|]. now rewrite Hh. }
  destruct (JSArray.sort newestFirst L) as [sorted|e] eqn:Es; simpl.
  - pose proof (sort_perm _ _ _ Es) as Hperm.
    destruct sorted as [|[x|] t]; simpl; try discriminate.
    + apply Permutation_sym, Permutation_nil in Hperm.
      rewrite Hperm in HL. contradiction.
    + exfalso.
      assert (Hnone : In None L).
      { eapply Permutation_in; [apply Permutation_sym, Hperm | now left]. }
      assert (Hlen : (2 <= length L)%nat).
      { apply (two_elements (Some sv) None); auto. discriminate. }
      destruct (sort_compared _ _ _ Es Hlen None Hnone) as [y [w [H|H]]];
        apply newestFirst_Ok in H; tauto.
  - apply sort_throw in Es. destruct Es as [a [b Hab]].
    apply newestFirst_Throw in Hab. subst e. discriminate.
Qed.

(** C5: when no stored preference matches and no candidate is free of
    '-', [getDefaultVersion] throws "Corrupted version data"; it never
    throws that error when a hyphen-free candidate with a valid semantic
    version exists. *)
Theorem C5_corrupted_version_data :
  forall (localStorage : LocalStorage) (versions : list RunnableVersion),
    (noPreference localStorage versions ->
     filter (fun v : RunnableVersion => negb (includes "-" (version v))) versions = [] ->
     getDefaultVersion localStorage versions = Throw (Error "Corrupted version data"))
    /\
    ((exists v sv, In v versions /\ includes "-" (version v) = false /\
                   semver.parse (version v) = Some sv) ->
     getDefaultVersion localStorage versions <> Throw (Error "Corrupted version data")).
Proof.
  intros localStorage versions. split.
  - intros Hno Hf. rewrite (noPreference_latestStable _ _ Hno).
    unfold latestStableVersion. now rewrite Hf.
  - intros Hex. unfold getDefaultVersion.
    destruct (ls_version localStorage) as [key|].
    + destruct (_ && _); [discriminate | now apply latestStable_not_corrupted].
    + now apply latestStable_not_corrupted.
Qed.

(** Only prereleases: the error.  A stable release next to text that is
    no version: another error, not this one. *)
Lemma C5_corrupted_version_data_witness :
  getDefaultVersion
    {| ls_version := None; ls_local := None; ls_known := None |}
    [candidate "11.0.0-beta.1"; candidate "12.0.0-nightly.20200101"]
  = Throw (Error "Corrupted version data")
  /\
  getDefaultVersion
    {| ls_version := None; ls_local := None; ls_known := None |}
    [candidate "latest"; candidate "10.0.0"]
  <> Throw (Error "Corrupted version data").
Proof.
  split.
  - apply (proj1 (C5_corrupted_version_data _ _)).
    + intros key v Hk. discriminate.
    + reflexivity.
  - apply (proj2 (C5_corrupted_version_data _ _)).
    exists (candidate "10.0.0"). eexists.
    split; [right; left; reflexivity | split; reflexivity].
Defined.

(** ** The release channel *)

Lemma not_includes (search s : string) :
  ~ contains search s -> includes search s = false.
Proof.
  intros H. destruct (includes search s) eqn:E; [|reflexivity].
  apply includes_spec in E. contradiction.
Qed.

(** C6: the channel of a version string is beta when it contains "alpha"
    or "beta", else nightly when it contains "nightly", else stable;
    so "10.0.0-alpha-nightly" is beta, "10.0.0-nightly.1" nightly and
    "10.0.0" stable. *)
Theorem C6_release_channel_rules :
  (forall tag : string,
      (contains "alpha" tag \/ contains "beta" tag ->
       getReleaseChannel (inr tag) = ElectronReleaseChannel.beta) /\
      (~ contains "alpha" tag -> ~ contains "beta" tag -> contains "nightly" tag ->
       getReleaseChannel (inr tag) = ElectronReleaseChannel.nightly) /\
      (~ contains "alpha" tag -> ~ contains "beta" tag -> ~ contains "nightly" tag ->
       getReleaseChannel (inr tag) = ElectronReleaseChannel.stable))
  /\ (forall v : Version, getReleaseChannel (inl v) = getReleaseChannel (inr (version v)))
  /\ getReleaseChannel (inr "10.0.0-alpha-nightly") = ElectronReleaseChannel.beta
  /\ getReleaseChannel (inr "10.0.0-beta.1") = ElectronReleaseChannel.beta
  /\ getReleaseChannel (inr "10.0.0-nightly.1") = ElectronReleaseChannel.nightly
  /\ getReleaseChannel (inr "10.0.0") = ElectronReleaseChannel.stable.
Proof.
  split; [|split; [|repeat split]].
  - intros tag. unfold getReleaseChannel. repeat split.
    + intros [H|H]; apply includes_spec in H; rewrite H;
        [now rewrite orb_true_r | reflexivity].
    + intros Ha Hb Hn. apply includes_spec in Hn.
      now rewrite (not_includes _ _ Ha), (not_includes _ _ Hb), Hn.
    + intros Ha Hb Hn.
      now rewrite (not_includes _ _ Ha), (not_includes _ _ Hb), (not_includes _ _ Hn).
  - intros v. unfold getReleaseChannel.
    destruct (truthy (version v)) eqn:E; [reflexivity|].
    unfold truthy in E. apply negb_false_iff, String.eqb_eq in E. now rewrite E.
Qed.

Lemma C6_release_channel_witness :
  getReleaseChannel (inr "v13.0.0-beta.2") = ElectronReleaseChannel.beta /\
  getReleaseChannel (inr "14.0.0-nightly.20210304") = ElectronReleaseChannel.nightly /\
  getReleaseChannel (inr "12.0.1") = ElectronReleaseChannel.stable.
Proof.
  assert (N1 : forall search s, includes search s = false -> ~ contains search s).
  { intros search s E H. apply includes_spec in H. congruence. }
  split; [|split].
  - apply (proj1 C6_release_channel_rules "v13.0.0-beta.2").
    right. apply includes_spec. reflexivity.
  - apply (proj1 C6_release_channel_rules "14.0.0-nightly.20210304");
      [apply N1; reflexivity | apply N1; reflexivity | apply includes_spec; reflexivity].
  - apply (proj1 C6_release_channel_rules "12.0.1"); apply N1; reflexivity.
Defined.

(** ** Install state *)

(** C7: without a [localPath] the state is missing and the disk is not
    asked; with one, the state is installed exactly when the executable
    path computed under it exists on the disk at the time of the call,
    and that path is the one asked about. *)
Theorem C7_version_state :
  forall (getExecPath : string -> string) (ver : Version),
    (localPath ver = None ->
     getVersionState getExecPath ver = Return InstallState.missing /\
     forall disk, probes disk (getVersionState getExecPath ver) = [])
    /\
    (forall p, localPath ver = Some p ->
       forall disk,
         (run disk (getVersionState getExecPath ver) = InstallState.installed
          <-> disk (getExecPath p) = true) /\
         (run disk (getVersionState getExecPath ver) = InstallState.missing
          <-> disk (getExecPath p) = false) /\
         probes disk (getVersionState getExecPath ver) = [getExecPath p]).
Proof.
  intros getExecPath ver. unfold getVersionState. split.
  - intros ->. split; reflexivity.
  - intros p -> disk. simpl.
    destruct (disk (getExecPath p)); repeat split; intros; congruence.
Qed.

Lemma C7_version_state_witness :
  getVersionState linuxExecPath {| version := "12.0.0"; name := None; localPath := None |}
  = Return InstallState.missing
  /\
  run (fun path => String.eqb path "/builds/e/electron")
      (getVersionState linuxExecPath
         {| version := "0.0.0"; name := Some "dev"; localPath := Some "/builds/e" |})
  = InstallState.installed.
Proof.
  split.
  - apply (proj1 (C7_version_state linuxExecPath _)). reflexivity.
  - apply (proj2 (C7_version_state linuxExecPath
                    {| version := "0.0.0"; name := Some "dev";
                       localPath := Some "/builds/e" |})
             "/builds/e" eq_refl
             (fun path => String.eqb path "/builds/e/electron")).
    reflexivity.
Defined.

(** C9, as amended: a runnable version whose source is remote and whose
    [localPath] is not the empty string has state missing. *)
Theorem C9_remote_is_missing :
  forall (getExecPath normalizeVersion : string -> string) (disk : string -> bool)
         (ver : Version),
    let runnable := run disk (makeRunnable getExecPath normalizeVersion ver) in
    source runnable = VersionSource.remote ->
    localPath ver <> Some "" ->
    state runnable = InstallState.missing.
Proof.
  intros getExecPath normalizeVersion disk ver. unfold makeRunnable, getVersionState.
  destruct (localPath ver) as [p|]; simpl; [|reflexivity].
  destruct (truthy p) eqn:E; [discriminate|].
  unfold truthy in E. apply negb_false_iff, String.eqb_eq in E. subst p.
  intros _ H. now destruct H.
Qed.

Lemma C9_remote_is_missing_witness :
  state (run (fun _ => true)
           (makeRunnable linuxExecPath (fun v => v)
              {| version := "12.0.0"; name := None; localPath := None |}))
  = InstallState.missing.
Proof.
  apply C9_remote_is_missing; [reflexivity | discriminate].
Defined.

(** C9, as stated, fails for a version whose [localPath] is the empty
    string: its source is remote, yet its state follows the disk. *)
Lemma C9_empty_localPath_counterexample :
  let ver := {| version := "12.0.0"; name := None; localPath := Some "" |} in
  let disk := fun path => String.eqb path "electron" in
  let runnable := run disk (makeRunnable linuxExecPath (fun v => v) ver) in
  truthyOpt (localPath ver) = false /\
  source runnable = VersionSource.remote /\
  state runnable = InstallState.installed.
Proof. repeat split. Qed.

(** ** The oldest supported major *)

Lemma ascending_decides (x y : Z) :
  True -> True ->
  exists v, ascending' x y = Ok v /\ (if JSArray.after v then y <= x else x <= y).
Proof.
  intros _ _. eexists; split; [reflexivity|]. simpl.
  destruct (Z.ltb_spec 0 (x - y)); lia.
Qed.

Lemma sort_majors (majors : list Z) :
  exists sorted,
    JSArray.sort (fun a b => Ok (JSNumber.sub a b)) (map Num majors)
    = Ok (map Num sorted) /\
    Permutation majors sorted /\ Sorted Z.le sorted.
Proof.
  destruct (sort_sorted ascending' (fun _ => True) Z.le ascending_decides majors)
    as [sorted [Es [Hs Hp]]].
  { apply Forall_forall. trivial. }
  exists sorted. repeat split; auto.
  rewrite (sort_map Num (fun a b => Ok (JSNumber.sub a b)) ascending'), Es;
    reflexivity.
Qed.

(** The comparator never throws, so neither does the sort. *)
Lemma sort_numbers_total (l : list number) :
  exists sorted, JSArray.sort (fun a b => Ok (JSNumber.sub a b)) l = Ok sorted.
Proof.
  destruct (sort_sorted (fun a b => Ok (JSNumber.sub a b))
              (fun _ => True) (fun _ _ => True)) with (l := l)
    as [sorted [Es _]].
  - intros x y _ _. eexists; split; [reflexivity|]. now destruct (JSArray.after _).
  - apply Forall_forall. trivial.
  - now exists sorted.
Qed.

Lemma branch_markers (knownVersions : list string) :
  map (fun ver => JSNumber.parseInt (version ver))
    (filter (fun ver => endsWith ".0.0" (version ver)) (getReleasedVersions knownVersions))
  = map JSNumber.parseInt (filter (endsWith ".0.0") knownVersions).
Proof.
  unfold getReleasedVersions.
  induction knownVersions as [|v l IH]; simpl; [reflexivity|].
  destruct (endsWith ".0.0" v); simpl; now rewrite IH.
Qed.

Lemma hd_error_skipn {A : Type} (k : nat) (l : list A) :
  hd_error (skipn k l) = nth_error l k.
Proof.
  revert l; induction k as [|k IH]; intros [|a l]; simpl; auto.
Qed.

(** C1, as amended: with fewer branch markers than the supported-branch
    count, [getOldestSupportedMajor] returns [undefined] only when the
    catalog has no branch marker; with at least one marker it returns a
    number that [parseInt] read from a marker, and when [parseInt] reads
    a finite number from every marker, the smallest marker's major; it
    never throws. *)
Theorem C1_fewer_branches_than_supported :
  forall (NUM_STABLE_BRANCHES : option string) (knownVersions : list string),
    let markers := filter (endsWith ".0.0") knownVersions in
    Z.of_nat (length markers) < NUM_BRANCHES NUM_STABLE_BRANCHES ->
    (markers = [] ->
     getOldestSupportedMajor NUM_STABLE_BRANCHES knownVersions = Ok None) /\
    (markers <> [] ->
     exists x,
       In x (map JSNumber.parseInt markers) /\
       getOldestSupportedMajor NUM_STABLE_BRANCHES knownVersions = Ok (Some x)) /\
    (forall majors,
        map JSNumber.parseInt markers = map Num majors -> majors <> [] ->
        exists oldest,
          In oldest majors /\ (forall m, In m majors -> oldest <= m) /\
          getOldestSupportedMajor NUM_STABLE_BRANCHES knownVersions
          = Ok (Some (Num oldest))) /\
    (exists r, getOldestSupportedMajor NUM_STABLE_BRANCHES knownVersions = Ok r).
Proof.
  intros env knownVersions markers Hlt.
  unfold getOldestSupportedMajor. rewrite branch_markers. fold markers.
  split; [|split; [|split]].
  - intros ->. simpl. unfold JSArray.slice. now rewrite skipn_nil.
  - intros Hne.
    destruct (sort_numbers_total (map JSNumber.parseInt markers)) as [sorted Es].
    rewrite Es. simpl. pose proof (sort_perm _ _ _ Es) as Hp.
    pose proof (Permutation_length Hp) as Hlen. rewrite length_map in Hlen.
    unfold JSArray.slice. rewrite <- Hlen.
    destruct (Z.ltb_spec (- NUM_BRANCHES env) 0) as [_|Hge]; [|lia].
    rewrite Z.max_r by lia. simpl.
    destruct sorted as [|x rest].
    + destruct markers; [contradiction | discriminate].
    + exists x. split; [|reflexivity].
      eapply Permutation_in; [apply Permutation_sym, Hp | now left].
  - intros majors Hm Hne. rewrite Hm.
    destruct (sort_majors majors) as [sorted [Es [Hp Hs]]]. rewrite Es. simpl.
    assert (Hlen : length sorted = length markers).
    { rewrite <- (Permutation_length Hp), <- (length_map Num majors), <- Hm.
      apply length_map. }
    unfold JSArray.slice. rewrite length_map, Hlen.
    destruct (Z.ltb_spec (- NUM_BRANCHES env) 0) as [_|Hge]; [|lia].
    rewrite Z.max_r by lia. simpl.
    destruct sorted as [|oldest rest].
    + apply Permutation_sym, Permutation_nil in Hp. contradiction.
    + exists oldest. repeat split.
      * eapply Permutation_in; [apply Permutation_sym, Hp | now left].
      * intros m Hin. apply (Permutation_in _ Hp) in Hin.
        apply Sorted_StronglySorted in Hs; [|exact Z.le_trans].
        inversion Hs as [|? ? _ Hall]; subst.
        destruct Hin as [<-|Hin]; [lia|].
        rewrite Forall_forall in Hall. now apply Hall.
  - destruct (sort_numbers_total (map JSNumber.parseInt markers)) as [sorted ->].
    simpl. eauto.
Qed.

(** Three markers that start with a number; and three of which one does
    not: the result is then a marker's number, here not the smallest. *)
Lemma C1_fewer_branches_witness :
  (exists oldest,
      In oldest [12; 10; 11] /\ (forall m, In m [12; 10; 11] -> oldest <= m) /\
      getOldestSupportedMajor None ["12.0.0"; "12.0.1"; "10.0.0"; "11.0.0"; "11.2.0"]
      = Ok (Some (Num oldest))) /\
  (exists x,
      In x (map JSNumber.parseInt ["3.0.0"; "x.0.0"; "1.0.0"]) /\
      getOldestSupportedMajor None ["3.0.0"; "x.0.0"; "1.0.0"] = Ok (Some x)).
Proof.
  split.
  - apply (proj1 (proj2 (proj2
             (C1_fewer_branches_than_supported None
                ["12.0.0"; "12.0.1"; "10.0.0"; "11.0.0"; "11.2.0"]
                ltac:(vm_compute; reflexivity)))) [12; 10; 11]).
    + reflexivity.
    + discriminate.
  - apply (proj1 (proj2
             (C1_fewer_branches_than_supported None ["3.0.0"; "x.0.0"; "1.0.0"]
                ltac:(vm_compute; reflexivity)))).
    discriminate.
Defined.

(** C1, as stated, fails: three branch markers and a supported-branch
    count of four give the oldest marker, not [undefined]. *)
Lemma C1_fewer_branches_counterexample :
  let knownVersions := ["12.0.0"; "12.0.1"; "11.0.0"; "10.0.0"; "10.1.0"] in
  Z.of_nat (length (filter (endsWith ".0.0") knownVersions)) < NUM_BRANCHES None /\
  getOldestSupportedMajor None knownVersions = Ok (Some (Num 10)) /\
  getOldestSupportedMajor None knownVersions <> Ok None.
Proof.
  cbv zeta. split; [vm_compute; reflexivity|]. split; [reflexivity | discriminate].
Qed.

(** C8, as amended: [getOldestSupportedMajor] keeps the catalog entries
    that end in ".0.0" and parses their leading integers; when each of
    them parses to a finite number and the count N is positive, it sorts them
    ascending and returns the one at index max(count - N, 0): the Nth
    from the newest when there are N or more, the oldest when there are
    fewer, [undefined] when there are none; N is 4 when the setting is
    unset or not a number; over the markers 8 to 12 with N = 4 the result
    is 9. *)
Theorem C8_oldest_supported_major :
  (NUM_BRANCHES None = 4 /\
   forall s, JSNumber.parseInt s = NaN -> NUM_BRANCHES (Some s) = 4)
  /\
  (forall (NUM_STABLE_BRANCHES : option string) (knownVersions : list string)
          (majors : list Z),
      let N := NUM_BRANCHES NUM_STABLE_BRANCHES in
      map JSNumber.parseInt (filter (endsWith ".0.0") knownVersions) = map Num majors ->
      1 <= N ->
      exists sorted,
        Permutation majors sorted /\ Sorted Z.le sorted /\
        getOldestSupportedMajor NUM_STABLE_BRANCHES knownVersions
        = Ok (option_map Num
                (elementAt sorted (Z.max (Z.of_nat (length majors) - N) 0))))
  /\
  getOldestSupportedMajor (Some "4") ["8.0.0"; "9.0.0"; "10.0.0"; "11.0.0"; "12.0.0"]
  = Ok (Some (Num 9))
  /\
  getOldestSupportedMajor None ["8.0.0"; "9.0.0"; "10.0.0"; "11.0.0"; "12.0.0"]
  = Ok (Some (Num 9)).
Proof.
  split; [split|split; [|split; reflexivity]].
  - reflexivity.
  - intros s H. unfold NUM_BRANCHES.
    assert (E : (if truthy s then s else "") = s).
    { destruct (truthy s) eqn:T; [reflexivity|].
      unfold truthy in T. now apply negb_false_iff, String.eqb_eq in T. }
    now rewrite E, H.
  - intros env knownVersions majors N Hm HN.
    unfold getOldestSupportedMajor. rewrite branch_markers, Hm.
    destruct (sort_majors majors) as [sorted [Es [Hp Hs]]]. rewrite Es. simpl.
    exists sorted. repeat split; auto.
    pose proof (Permutation_length Hp) as Hlen.
    unfold JSArray.slice, JSArray.shift, elementAt. rewrite length_map, <- Hlen.
    fold N. destruct (Z.ltb_spec (- N) 0) as [_|Hge]; [|lia].
    destruct (Z.ltb_spec (Z.max (Z.of_nat (length majors) - N) 0) 0) as [Hneg|_]; [lia|].
    rewrite hd_error_skipn, nth_error_map.
    now replace (Z.of_nat (length majors) + - N) with (Z.of_nat (length majors) - N) by lia.
Qed.

(** A count of two over five markers, a count of four over three, and a
    setting that is not a number. *)
Lemma C8_oldest_supported_major_witness :
  NUM_BRANCHES (Some "four") = 4 /\
  (exists sorted,
      Permutation [12; 9; 10; 8; 11] sorted /\ Sorted Z.le sorted /\
      getOldestSupportedMajor (Some "2")
        ["12.0.0"; "12.1.0"; "9.0.0"; "10.0.0"; "8.0.0"; "11.0.0"; "11.0.1"]
      = Ok (option_map Num (elementAt sorted 3))) /\
  (exists sorted,
      Permutation [12; 10; 11] sorted /\ Sorted Z.le sorted /\
      getOldestSupportedMajor (Some "four") ["12.0.0"; "10.0.0"; "11.0.0"]
      = Ok (option_map Num (elementAt sorted 0))).
Proof.
  split; [|split].
  - apply (proj2 (proj1 C8_oldest_supported_major)). reflexivity.
  - apply (proj1 (proj2 C8_oldest_supported_major) (Some "2")
             ["12.0.0"; "12.1.0"; "9.0.0"; "10.0.0"; "8.0.0"; "11.0.0"; "11.0.1"]
             [12; 9; 10; 8; 11]).
    + reflexivity.
    + vm_compute. discriminate.
  - apply (proj1 (proj2 C8_oldest_supported_major) (Some "four")
             ["12.0.0"; "10.0.0"; "11.0.0"] [12; 10; 11]).
    + reflexivity.
    + vm_compute. discriminate.
Defined.

(** C8, as stated, fails: with three markers and N = 4 the index
    count - N is -1, where the sorted array has nothing, yet the oldest
    marker is returned. *)
Lemma C8_index_underflow_counterexample :
  let knownVersions := ["10.0.0"; "12.0.0"; "11.0.0"] in
  let sorted := [10; 11; 12] in
  let count := Z.of_nat (length (filter (endsWith ".0.0") knownVersions)) in
  let N := NUM_BRANCHES None in
  N = 4 /\ count - N = -1 /\
  elementAt sorted (count - N) = None /\
  getOldestSupportedMajor None knownVersions = Ok (Some (Num 10)) /\
  getOldestSupportedMajor None knownVersions
  <> Ok (option_map Num (elementAt sorted (count - N))).
Proof.
  cbv zeta. repeat split. discriminate.
Qed.

(** ** The local store *)

Lemma keptLocally_entryOf (v : Version + RunnableVersion) :
  keptLocally (entryOf v) = plainOrLocal v.
Proof. destruct v as [p|r]; reflexivity. Qed.

Lemma filter_entryOf (versions : list (Version + RunnableVersion)) :
  filter keptLocally (map entryOf versions) = map entryOf (filter plainOrLocal versions).
Proof.
  induction versions as [|v l IH]; simpl; [reflexivity|].
  rewrite keptLocally_entryOf. destruct (plainOrLocal v); simpl; now rewrite IH.
Qed.

Lemma filter_all {A : Type} (f : A -> bool) (l : list A) :
  forallb f l = true -> filter f l = l.
Proof.
  induction l as [|a l IH]; simpl; [reflexivity|].
  intros H. apply andb_true_iff in H. destruct H as [-> H]. now rewrite IH.
Qed.

Lemma optEqb_eq (a b : option string) : optEqb a b = true <-> a = b.
Proof.
  destruct a as [s|], b as [t|]; simpl; try (split; congruence).
  rewrite String.eqb_eq. split; congruence.
Qed.

(** Loading a stored array that passes the format check returns it and
    leaves the store alone. *)
Lemma getLocalVersions_expected (localStorage : LocalStorage) (stored : list Entry) :
  ls_local localStorage = Some (Doc stored) ->
  isExpectedFormat stored = true ->
  getLocalVersions localStorage = (Ok stored, localStorage).
Proof.
  intros Hs Hf.
  unfold getLocalVersions, getVersions, bind, getItem, tryCatch, JSON_parse, ret.
  rewrite Hs. simpl. now rewrite Hf.
Qed.

(** C2, as amended: saving a list of plain and runnable versions under
    the local key and loading it again yields exactly the plain versions
    and the runnable versions whose source is local, when each of these
    has a non-empty version. *)
Theorem C2_save_then_reload :
  forall (localStorage : LocalStorage) (versions : list (Version + RunnableVersion)),
    (forall v, In v versions -> plainOrLocal v = true -> versionOf v <> "") ->
    fst (saveAndReload versions localStorage)
    = Ok (map entryOf (filter plainOrLocal versions)).
Proof.
  intros localStorage versions Hv.
  unfold saveAndReload, saveLocalVersions, saveVersions, setItem, bind, JSON_stringify.
  rewrite filter_entryOf.
  rewrite (getLocalVersions_expected _ (map entryOf (filter plainOrLocal versions)));
    [reflexivity | reflexivity |].
  unfold isExpectedFormat. apply forallb_forall. intros e He.
  apply in_map_iff in He. destruct He as [v [<- Hin]].
  apply filter_In in Hin. destruct Hin as [Hin Hp].
  specialize (Hv v Hin Hp). apply truthy_true in Hv.
  destruct v; exact Hv.
Qed.

Lemma C2_save_then_reload_witness :
  fst (saveAndReload
         [inl {| version := "12.0.0"; name := None; localPath := None |};
          inr {| ver := {| version := "11.0.0"; name := None; localPath := None |};
                 source := VersionSource.remote; state := InstallState.missing |};
          inr {| ver := {| version := "0.0.0"; name := Some "dev";
                           localPath := Some "/builds/e" |};
                 source := VersionSource.local; state := InstallState.installed |}]
         {| ls_version := None; ls_local := None; ls_known := None |})
  = Ok [entryOfVersion {| version := "12.0.0"; name := None; localPath := None |};
        entryOfRunnable
          {| ver := {| version := "0.0.0"; name := Some "dev";
                       localPath := Some "/builds/e" |};
             source := VersionSource.local; state := InstallState.installed |}].
Proof.
  apply C2_save_then_reload.
  intros v [<-|[<-|[<-|[]]]] _; discriminate.
Defined.

(** C2, as stated, fails: a plain version without a [localPath] is saved
    and loaded again, though its derived source is not local. *)
Lemma C2_plain_version_counterexample :
  let plain := {| version := "12.0.0"; name := None; localPath := None |} in
  let localStorage := {| ls_version := None; ls_local := None; ls_known := None |} in
  filter derivedLocal [inl plain] = [] /\
  fst (saveAndReload [inl plain] localStorage) = Ok [entryOfVersion plain] /\
  fst (saveAndReload [inl plain] localStorage)
  <> Ok (map entryOf (filter derivedLocal [inl plain])).
Proof.
  cbv zeta. split; [reflexivity|]. split; [reflexivity | discriminate].
Qed.

(** C10, as amended: when the local store holds an array that passes the
    format check and has no entry with a source other than local, adding
    a version whose [localPath] is that of a stored entry returns the
    stored array and leaves the store as it was. *)
Theorem C10_add_existing_path :
  forall (localStorage : LocalStorage) (stored : list Entry) (input : Version),
    ls_local localStorage = Some (Doc stored) ->
    isExpectedFormat stored = true ->
    forallb keptLocally stored = true ->
    (exists e, In e stored /\ entry_localPath e = localPath input) ->
    addLocalVersion input localStorage = (Ok stored, localStorage).
Proof.
  intros localStorage stored input Hs Hf Hk [e [Hin He]].
  unfold addLocalVersion, bind.
  rewrite (getLocalVersions_expected _ _ Hs Hf).
  destruct (find _ stored) as [found|] eqn:Efind.
  - unfold saveLocalVersions, saveVersions, setItem, JSON_stringify, ret.
    rewrite (filter_all _ _ Hk).
    destruct localStorage as [v l k]. simpl in *. now rewrite Hs.
  - exfalso. apply (find_none _ _ Efind) in Hin.
    apply optEqb_eq in He. congruence.
Qed.

Lemma C10_add_existing_path_witness :
  let stored :=
    [entryOfVersion {| version := "0.0.0"; name := Some "dev";
                       localPath := Some "/builds/e" |}] in
  let localStorage :=
    {| ls_version := None; ls_local := Some (Doc stored); ls_known := None |} in
  addLocalVersion
    {| version := "12.0.0"; name := Some "other"; localPath := Some "/builds/e" |}
    localStorage
  = (Ok stored, localStorage).
Proof.
  cbv zeta. apply C10_add_existing_path.
  - reflexivity.
  - reflexivity.
  - reflexivity.
  - eexists. split; [left; reflexivity | reflexivity].
Defined.

(** C10, as stated, fails: an entry with an empty version is in the store
    after [addLocalVersion] put it there; adding another version with its
    [localPath] replaces it. *)
Lemma C10_empty_version_counterexample :
  let empty := {| ls_version := None; ls_local := None; ls_known := None |} in
  let first := {| version := ""; name := Some "dev"; localPath := Some "/builds/e" |} in
  let second := {| version := "12.0.0"; name := Some "other";
                   localPath := Some "/builds/e" |} in
  let localStorage := snd (addLocalVersion first empty) in
  ls_local localStorage = Some (Doc [entryOfVersion first]) /\
  localPath second = localPath first /\
  fst (addLocalVersion second localStorage) = Ok [entryOfVersion second] /\
  ls_local (snd (addLocalVersion second localStorage))
  = Some (Doc [entryOfVersion second]) /\
  ls_local (snd (addLocalVersion second localStorage)) <> ls_local localStorage.
Proof.
  cbv zeta. repeat split. discriminate.
Qed.

(** * Further properties of [src/renderer/versions.ts] *)

(** ** Loading from the store *)

Lemma filter_true {A : Type} (l : list A) : filter (fun _ => true) l = l.
Proof. induction l as [|a l IH]; simpl; [reflexivity | now rewrite IH]. Qed.

Lemma migrateVersions_cons (item : Entry) (input : list Entry) :
  migrateVersions (item :: input) =
  if legacy item then
    {| entry_version := entry_tag_name item;
       entry_name := entry_name item;
       entry_localPath := entry_url item;
       entry_source := None; entry_state := None;
       entry_tag_name := None; entry_url := None |} :: migrateVersions input
  else migrateVersions input.
Proof.
  unfold migrateVersions, legacy. simpl.
  destruct (truthyOpt (entry_tag_name item)), (truthyOpt (entry_name item)),
    (truthyOpt (entry_url item)); reflexivity.
Qed.

Lemma migrateVersions_nil : migrateVersions [] = [].
Proof. reflexivity. Qed.

Lemma migrateVersions_kept (input : list Entry) :
  forallb keptLocally (migrateVersions input) = true.
Proof.
  induction input as [|item l IH]; [reflexivity|].
  rewrite migrateVersions_cons. destruct (legacy item); [|assumption].
  simpl. exact IH.
Qed.

Lemma migrateVersions_expected (input : list Entry) :
  isExpectedFormat (migrateVersions input) = true.
Proof.
  induction input as [|item l IH]; [reflexivity|].
  rewrite migrateVersions_cons. destruct (legacy item) eqn:E; [|assumption].
  unfold isExpectedFormat in *. simpl. rewrite IH, andb_true_r.
  unfold legacy in E. apply andb_true_iff in E. destruct E as [E _].
  apply andb_true_iff in E. tauto.
Qed.

(** What [getVersions] does, case by case. *)
Lemma getVersions_cases (key : VersionKeys.t) (fallbackMethod : unit -> list Entry)
    (localStorage : LocalStorage) :
  getVersions key fallbackMethod localStorage =
  match (match key with
         | VersionKeys.local => ls_local localStorage
         | VersionKeys.known => ls_known localStorage
         end) with
  | Some (Doc stored) =>
      if isExpectedFormat stored then (Ok stored, localStorage)
      else match key with
           | VersionKeys.known => (Ok (fallbackMethod tt), localStorage)
           | VersionKeys.local =>
               (Ok (migrateVersions stored),
                withLocal localStorage (Doc (migrateVersions stored)))
           end
  | _ => (Ok (fallbackMethod tt), localStorage)
  end.
Proof.
  unfold getVersions, bind, getItem, tryCatch, JSON_parse, ret, throw.
  destruct key; simpl.
  - destruct (ls_local localStorage) as [[| |stored]|]; simpl; try reflexivity.
    destruct (isExpectedFormat stored); simpl; [reflexivity|].
    unfold saveLocalVersions, saveVersions, setItem, JSON_stringify, withLocal.
    now rewrite (filter_all _ _ (migrateVersions_kept stored)).
  - destruct (ls_known localStorage) as [[| |stored]|]; simpl; try reflexivity.
    now destruct (isExpectedFormat stored).
Qed.

Lemma getLocalVersions_cases (localStorage : LocalStorage) :
  getLocalVersions localStorage =
  match ls_local localStorage with
  | Some (Doc stored) =>
      if isExpectedFormat stored then (Ok stored, localStorage)
      else (Ok (migrateVersions stored),
            withLocal localStorage (Doc (migrateVersions stored)))
  | _ => (Ok [], localStorage)
  end.
Proof.
  unfold getLocalVersions. rewrite getVersions_cases.
  destruct (ls_local localStorage) as [[| |stored]|]; reflexivity.
Qed.

(** X1: when the key is missing, or holds the empty string, or holds
    text on which [JSON.parse] or the format check throws, [getVersions]
    returns what the fallback method returns and leaves the store as it
    is. *)
Theorem X1_getVersions_fallback :
  forall (key : VersionKeys.t) (fallbackMethod : unit -> list Entry)
         (localStorage : LocalStorage),
    itemAt key localStorage = None \/
    itemAt key localStorage = Some EmptyText \/
    itemAt key localStorage = Some Unreadable ->
    getVersions key fallbackMethod localStorage = (Ok (fallbackMethod tt), localStorage).
Proof.
  intros key fallbackMethod localStorage H. rewrite getVersions_cases.
  fold (itemAt key localStorage).
  destruct H as [->|[->| ->]]; reflexivity.
Qed.

Lemma X1_getVersions_fallback_witness :
  getVersions VersionKeys.local (fun _ => [])
    {| ls_version := Some "12.0.0"; ls_local := Some Unreadable; ls_known := None |}
  = (Ok [],
     {| ls_version := Some "12.0.0"; ls_local := Some Unreadable; ls_known := None |})
  /\
  getVersions VersionKeys.known (fun _ => [entryOfVersion (candidate "12.0.0")])
    {| ls_version := None; ls_local := None; ls_known := Some EmptyText |}
  = (Ok [entryOfVersion (candidate "12.0.0")],
     {| ls_version := None; ls_local := None; ls_known := Some EmptyText |}).
Proof.
  split; apply X1_getVersions_fallback.
  - right. right. reflexivity.
  - right. left. reflexivity.
Defined.

(** X2: loading the known-versions key never writes to the store; a
    stored array that fails the format check is not migrated, the fallback
    method answers instead. *)
Theorem X2_known_versions_not_migrated :
  forall (fallbackMethod : unit -> list Entry) (localStorage : LocalStorage),
    snd (getVersions VersionKeys.known fallbackMethod localStorage) = localStorage /\
    (forall stored,
        ls_known localStorage = Some (Doc stored) ->
        isExpectedFormat stored = false ->
        fst (getVersions VersionKeys.known fallbackMethod localStorage)
        = Ok (fallbackMethod tt)).
Proof.
  intros fallbackMethod localStorage. rewrite getVersions_cases. split.
  - destruct (ls_known localStorage) as [[| |stored]|]; try reflexivity.
    now destruct (isExpectedFormat stored).
  - intros stored -> ->. reflexivity.
Qed.

Lemma X2_known_versions_witness :
  fst (getVersions VersionKeys.known (fun _ => [])
         {| ls_version := None; ls_local := None;
            ls_known := Some (Doc [entryOfVersion (candidate "")]) |})
  = Ok [].
Proof.
  apply (proj2 (X2_known_versions_not_migrated (fun _ => [])
                  {| ls_version := None; ls_local := None;
                     ls_known := Some (Doc [entryOfVersion (candidate "")]) |})
           [entryOfVersion (candidate "")]); reflexivity.
Defined.

(** X3: [getLocalVersions] never throws, and every element of the array
    it returns has a non-empty [version], whatever the store holds. *)
Theorem X3_local_versions_expected_format :
  forall localStorage : LocalStorage,
    exists versions,
      fst (getLocalVersions localStorage) = Ok versions /\
      forall e, In e versions -> exists v, entry_version e = Some v /\ v <> "".
Proof.
  intros localStorage.
  assert (H : exists versions, fst (getLocalVersions localStorage) = Ok versions /\
                               isExpectedFormat versions = true).
  { rewrite getLocalVersions_cases.
    destruct (ls_local localStorage) as [[| |stored]|]; try (now exists []).
    destruct (isExpectedFormat stored) eqn:E.
    - now exists stored.
    - exists (migrateVersions stored). split; [reflexivity|].
      apply migrateVersions_expected. }
  destruct H as [versions [Hv Hf]]. exists versions. split; [assumption|].
  intros e He. unfold isExpectedFormat in Hf.
  rewrite forallb_forall in Hf. specialize (Hf e He).
  destruct (entry_version e) as [v|]; [|discriminate].
  exists v. split; [reflexivity|]. now apply truthy_true.
Qed.

(** X4: a local array that fails the format check is migrated on load,
    and the migrated array is stored at once; loading again returns the
    same array and leaves the store as it then is. *)
Theorem X4_migration_heals_once :
  forall (localStorage : LocalStorage) (stored : list Entry),
    ls_local localStorage = Some (Doc stored) ->
    isExpectedFormat stored = false ->
    let healed := withLocal localStorage (Doc (migrateVersions stored)) in
    getLocalVersions localStorage = (Ok (migrateVersions stored), healed) /\
    getLocalVersions healed = (Ok (migrateVersions stored), healed).
Proof.
  intros localStorage stored Hs Hf healed. split.
  - rewrite getLocalVersions_cases, Hs, Hf. reflexivity.
  - rewrite getLocalVersions_cases. subst healed. simpl.
    now rewrite migrateVersions_expected.
Qed.

Lemma X4_migration_heals_once_witness :
  let old := {| entry_version := None; entry_name := Some "dev";
                entry_localPath := None; entry_source := None; entry_state := None;
                entry_tag_name := Some "v1.0.0"; entry_url := Some "/builds/e" |} in
  let localStorage := withLocal emptyStorage (Doc [old]) in
  let healed := withLocal emptyStorage (Doc [migrated "v1.0.0" "dev" "/builds/e"]) in
  getLocalVersions localStorage = (Ok [migrated "v1.0.0" "dev" "/builds/e"], healed) /\
  getLocalVersions healed = (Ok [migrated "v1.0.0" "dev" "/builds/e"], healed).
Proof.
  exact (X4_migration_heals_once
           (withLocal emptyStorage
              (Doc [{| entry_version := None; entry_name := Some "dev";
                       entry_localPath := None; entry_source := None;
                       entry_state := None;
                       entry_tag_name := Some "v1.0.0";
                       entry_url := Some "/builds/e" |}]))
           [{| entry_version := None; entry_name := Some "dev";
               entry_localPath := None; entry_source := None;
               entry_state := None;
               entry_tag_name := Some "v1.0.0";
               entry_url := Some "/builds/e" |}]
           eq_refl eq_refl).
Defined.

(** X5: every entry [migrateVersions] returns is
    [{version: tag_name, name, localPath: url}] for an input entry whose
    [tag_name], [name] and [url] are all non-empty; it returns one entry
    for each such input entry and nothing else; migrating its own output
    gives the empty array. *)
Theorem X5_migrateVersions_output :
  forall input : list Entry,
    (forall e, In e (migrateVersions input) ->
       exists item t n u,
         In item input /\
         entry_tag_name item = Some t /\ entry_name item = Some n /\
         entry_url item = Some u /\
         t <> "" /\ n <> "" /\ u <> "" /\ e = migrated t n u) /\
    length (migrateVersions input) = length (filter legacy input) /\
    migrateVersions (migrateVersions input) = [].
Proof.
  intros input. induction input as [|item l [IH1 [IH2 IH3]]].
  - repeat split. intros e [].
  - rewrite migrateVersions_cons. simpl. destruct (legacy item) eqn:E.
    + unfold legacy in E. apply andb_true_iff in E. destruct E as [E Eu].
      apply andb_true_iff in E. destruct E as [Et En].
      destruct (entry_tag_name item) as [t|] eqn:Ht; [|discriminate].
      destruct (entry_name item) as [n|] eqn:Hn; [|discriminate].
      destruct (entry_url item) as [u|] eqn:Hu; [|discriminate].
      simpl in Et, En, Eu. apply truthy_true in Et, En, Eu.
      split; [|split].
      * intros e [<-|He].
        -- exists item, t, n, u. repeat split; auto.
        -- destruct (IH1 e He) as (i & t' & n' & u' & Hi & H).
           exists i, t', n', u'. split; [now right | exact H].
      * simpl. now rewrite IH2.
      * rewrite migrateVersions_cons. exact IH3.
    + split; [|split; assumption].
      intros e He. destruct (IH1 e He) as (i & t' & n' & u' & Hi & H).
      exists i, t', n', u'. split; [now right | exact H].
Qed.

Lemma migrateVersions_none_legacy (input : list Entry) :
  forallb (fun e => negb (legacy e)) input = true -> migrateVersions input = [].
Proof.
  induction input as [|item l IH]; [reflexivity|]. simpl. intros H.
  apply andb_true_iff in H. destruct H as [H1 H2].
  rewrite migrateVersions_cons. apply negb_true_iff in H1. rewrite H1. now apply IH.
Qed.

Lemma missing_version_fails_format (stored : list Entry) :
  (exists e, In e stored /\ truthyOpt (entry_version e) = false) ->
  isExpectedFormat stored = false.
Proof.
  intros [e [Hin He]]. unfold isExpectedFormat.
  destruct (forallb _ stored) eqn:F; [|reflexivity].
  rewrite forallb_forall in F. specialize (F e Hin). congruence.
Qed.

Lemma load_unexpected (localStorage : LocalStorage) (stored : list Entry) :
  ls_local localStorage = Some (Doc stored) ->
  isExpectedFormat stored = false ->
  getLocalVersions localStorage
  = (Ok (migrateVersions stored), withLocal localStorage (Doc (migrateVersions stored))).
Proof.
  intros Hs Hf. now rewrite getLocalVersions_cases, Hs, Hf.
Qed.

(** X6: when the stored local array has an element without a non-empty
    [version] and none of its elements is a complete legacy entry, loading
    it returns the empty array and overwrites the store with the empty
    array: the elements in the current format are lost. *)
Theorem X6_unexpected_format_empties_store :
  forall (localStorage : LocalStorage) (stored : list Entry),
    ls_local localStorage = Some (Doc stored) ->
    (exists e, In e stored /\ truthyOpt (entry_version e) = false) ->
    (forall e, In e stored -> legacy e = false) ->
    getLocalVersions localStorage = (Ok [], withLocal localStorage (Doc [])).
Proof.
  intros localStorage stored Hs He Hl.
  rewrite (load_unexpected _ _ Hs (missing_version_fails_format _ He)).
  rewrite migrateVersions_none_legacy; [reflexivity|].
  apply forallb_forall. intros x Hx. now rewrite (Hl x Hx).
Qed.

Lemma X6_unexpected_format_witness :
  let stored := [entryOfVersion {| version := "12.0.0"; name := Some "a";
                                   localPath := Some "/a" |};
                 entryOfVersion {| version := ""; name := Some "b";
                                   localPath := Some "/b" |}] in
  getLocalVersions (withLocal emptyStorage (Doc stored))
  = (Ok [], withLocal (withLocal emptyStorage (Doc stored)) (Doc [])).
Proof.
  cbv zeta. eapply X6_unexpected_format_empties_store.
  - reflexivity.
  - eexists. split; [right; left; reflexivity | reflexivity].
  - intros e [<-|[<-|[]]]; reflexivity.
Defined.

(** ** Saving and adding *)

Lemma getLocalVersions_loaded (localStorage : LocalStorage) :
  exists after,
    getLocalVersions localStorage = (Ok (loadedLocal localStorage), after) /\
    sameOtherKeys localStorage after /\
    isExpectedFormat (loadedLocal localStorage) = true.
Proof.
  unfold loadedLocal. rewrite getLocalVersions_cases.
  destruct (ls_local localStorage) as [[| |stored]|];
    try (exists localStorage; repeat split; reflexivity).
  destruct (isExpectedFormat stored) eqn:E.
  - exists localStorage. repeat split. exact E.
  - eexists. split; [reflexivity|]. split; [split; reflexivity|].
    apply migrateVersions_expected.
Qed.

Lemma addLocalVersion_cases (input : Version) (localStorage after : LocalStorage)
    (loaded : list Entry) :
  getLocalVersions localStorage = (Ok loaded, after) ->
  let versions :=
    match find (fun v => optEqb (entry_localPath v) (localPath input)) loaded with
    | Some _ => loaded
    | None => (loaded ++ [entryOfVersion input])%list
    end in
  addLocalVersion input localStorage
  = (Ok versions, withLocal after (Doc (filter keptLocally versions))).
Proof.
  intros H. unfold addLocalVersion, bind. rewrite H.
  destruct (find _ loaded); reflexivity.
Qed.

Lemma find_path_none (loaded : list Entry) (p : option string) :
  (forall e, In e loaded -> entry_localPath e <> p) ->
  find (fun v => optEqb (entry_localPath v) p) loaded = None.
Proof.
  intros H. destruct (find _ loaded) as [x|] eqn:E; [|reflexivity].
  apply find_some in E. destruct E as [Hin Hx].
  apply optEqb_eq in Hx. now destruct (H x Hin).
Qed.

(** X7: loading, saving, adding and looking up local versions leave the
    stored preference and the known-versions key as they are. *)
Theorem X7_local_operations_frame :
  forall (localStorage : LocalStorage) (versions : list Entry) (input : Version)
         (folderPath : string),
    sameOtherKeys localStorage (snd (getLocalVersions localStorage)) /\
    sameOtherKeys localStorage (snd (saveLocalVersions versions localStorage)) /\
    sameOtherKeys localStorage (snd (addLocalVersion input localStorage)) /\
    sameOtherKeys localStorage (snd (getLocalVersionForPath folderPath localStorage)).
Proof.
  intros localStorage versions input folderPath.
  destruct (getLocalVersions_loaded localStorage) as [after [Hl [Hs _]]].
  repeat split.
  - rewrite Hl. apply Hs.
  - rewrite Hl. apply Hs.
  - rewrite (addLocalVersion_cases input _ _ _ Hl). apply Hs.
  - rewrite (addLocalVersion_cases input _ _ _ Hl). apply Hs.
  - unfold getLocalVersionForPath, bind. rewrite Hl. apply Hs.
  - unfold getLocalVersionForPath, bind. rewrite Hl. apply Hs.
Qed.

Lemma keptLocally_source (e : Entry) :
  keptLocally e = true <-> entry_source e <> Some VersionSource.remote.
Proof.
  unfold keptLocally, isElectronVersion.
  destruct (entry_source e) as [[|]|]; simpl; split; congruence.
Qed.

(** X8: [saveLocalVersions] stores, in their order, exactly the elements
    whose [source] is not remote; no stored element has the source remote;
    saving the stored array again changes nothing. *)
Theorem X8_saved_entries_never_remote :
  forall (versions : list Entry) (localStorage : LocalStorage),
    exists stored,
      saveLocalVersions versions localStorage
      = (Ok tt, withLocal localStorage (Doc stored)) /\
      (forall e, In e stored <->
                 In e versions /\ entry_source e <> Some VersionSource.remote) /\
      saveLocalVersions stored (withLocal localStorage (Doc stored))
      = (Ok tt, withLocal localStorage (Doc stored)).
Proof.
  intros versions localStorage. exists (filter keptLocally versions).
  split; [reflexivity|]. split.
  - intros e. rewrite filter_In, keptLocally_source. reflexivity.
  - unfold saveLocalVersions, saveVersions, setItem, JSON_stringify, withLocal. simpl.
    rewrite filter_all; [reflexivity|].
    apply forallb_forall. intros e He. now apply filter_In in He.
Qed.

(** X9: adding a version whose [localPath] no loaded entry has appends it:
    the returned array is the loaded one with the new entry at its end,
    and the store holds the loaded entries whose source is not remote,
    followed by the new entry. *)
Theorem X9_add_new_path_appends :
  forall (localStorage : LocalStorage) (input : Version),
    (forall e, In e (loadedLocal localStorage) -> entry_localPath e <> localPath input) ->
    fst (addLocalVersion input localStorage)
    = Ok (loadedLocal localStorage ++ [entryOfVersion input])%list /\
    ls_local (snd (addLocalVersion input localStorage))
    = Some (Doc (filter keptLocally (loadedLocal localStorage)
                   ++ [entryOfVersion input])%list).
Proof.
  intros localStorage input H.
  destruct (getLocalVersions_loaded localStorage) as [after [Hl _]].
  rewrite (addLocalVersion_cases input _ _ _ Hl), (find_path_none _ _ H). simpl.
  rewrite filter_app. split; reflexivity.
Qed.

Lemma X9_add_new_path_witness :
  let first := {| version := "0.0.0"; name := Some "dev"; localPath := Some "/builds/e" |} in
  let second := {| version := "0.0.1"; name := Some "other"; localPath := Some "/builds/f" |} in
  let localStorage := withLocal emptyStorage (Doc [entryOfVersion first]) in
  fst (addLocalVersion second localStorage)
  = Ok [entryOfVersion first; entryOfVersion second] /\
  ls_local (snd (addLocalVersion second localStorage))
  = Some (Doc [entryOfVersion first; entryOfVersion second]).
Proof.
  cbv zeta. apply X9_add_new_path_appends.
  intros e [<-|[]]. discriminate.
Defined.

Lemma find_append {A : Type} (f : A -> bool) (l1 l2 : list A) :
  find f (l1 ++ l2) = match find f l1 with Some x => Some x | None => find f l2 end.
Proof.
  induction l1 as [|a l1 IH]; simpl; [reflexivity|]. now destruct (f a).
Qed.

Lemma isExpectedFormat_filter (f : Entry -> bool) (l : list Entry) :
  isExpectedFormat l = true -> isExpectedFormat (filter f l) = true.
Proof.
  unfold isExpectedFormat. rewrite !forallb_forall. intros H e He.
  apply filter_In in He. now apply H.
Qed.

(** X10: after [addLocalVersion] of a version with a non-empty [version]
    and a [localPath] that no loaded entry has, [getLocalVersionForPath]
    of that path returns the added version. *)
Theorem X10_add_then_lookup :
  forall (localStorage : LocalStorage) (input : Version) (folderPath : string),
    localPath input = Some folderPath ->
    version input <> "" ->
    (forall e, In e (loadedLocal localStorage) -> entry_localPath e <> Some folderPath) ->
    fst (getLocalVersionForPath folderPath (snd (addLocalVersion input localStorage)))
    = Ok (Some (entryOfVersion input)).
Proof.
  intros localStorage input folderPath Hp Hv Hnew.
  destruct (getLocalVersions_loaded localStorage) as [after [Hl [_ Hf]]].
  rewrite <- Hp in Hnew.
  rewrite (addLocalVersion_cases input _ _ _ Hl), (find_path_none _ _ Hnew). simpl.
  rewrite filter_app. simpl.
  set (kept := filter keptLocally (loadedLocal localStorage)).
  unfold getLocalVersionForPath, bind.
  rewrite getLocalVersions_cases. simpl.
  assert (E : isExpectedFormat (kept ++ [entryOfVersion input]) = true).
  { unfold isExpectedFormat. rewrite forallb_app. apply andb_true_iff. split.
    - now apply isExpectedFormat_filter.
    - simpl. apply truthy_true in Hv. now rewrite Hv. }
  rewrite E. simpl. rewrite find_append.
  rewrite find_path_none.
  - simpl. rewrite Hp. simpl. now rewrite String.eqb_refl.
  - intros e He. apply filter_In in He. rewrite <- Hp. now apply Hnew.
Qed.

Lemma X10_add_then_lookup_witness :
  let input := {| version := "0.0.1"; name := Some "other"; localPath := Some "/builds/f" |} in
  fst (getLocalVersionForPath "/builds/f"
         (snd (addLocalVersion input
                 (withLocal emptyStorage
                    (Doc [entryOfVersion {| version := "0.0.0"; name := Some "dev";
                                            localPath := Some "/builds/e" |}])))))
  = Ok (Some (entryOfVersion input)).
Proof.
  cbv zeta. apply X10_add_then_lookup.
  - reflexivity.
  - discriminate.
  - intros e [<-|[]]. discriminate.
Defined.

Lemma NoDup_map_filter {A B : Type} (f : A -> B) (g : A -> bool) (l : list A) :
  NoDup (map f l) -> NoDup (map f (filter g l)).
Proof.
  induction l as [|a l IH]; simpl; intros H; [constructor|].
  inversion H as [|? ? Hn Hd]; subst.
  destruct (g a); simpl; [|now apply IH].
  constructor; [|now apply IH].
  intros Hin. apply Hn. apply in_map_iff in Hin. destruct Hin as [x [Hx Hin]].
  apply filter_In in Hin. apply in_map_iff. exists x. tauto.
Qed.

(** X11: [addLocalVersion] keeps local paths distinct: when no two loaded
    entries have the same [localPath], no two entries of the array it
    returns have, and no two entries of the array it stores. *)
Theorem X11_add_keeps_paths_distinct :
  forall (localStorage : LocalStorage) (input : Version),
    NoDup (map entry_localPath (loadedLocal localStorage)) ->
    exists returned stored,
      fst (addLocalVersion input localStorage) = Ok returned /\
      ls_local (snd (addLocalVersion input localStorage)) = Some (Doc stored) /\
      NoDup (map entry_localPath returned) /\
      NoDup (map entry_localPath stored).
Proof.
  intros localStorage input Hnd.
  destruct (getLocalVersions_loaded localStorage) as [after [Hl _]].
  rewrite (addLocalVersion_cases input _ _ _ Hl). simpl.
  eexists. eexists. split; [reflexivity|]. split; [reflexivity|].
  assert (H : NoDup (map entry_localPath
                       match find (fun v => optEqb (entry_localPath v) (localPath input))
                               (loadedLocal localStorage) with
                       | Some _ => loadedLocal localStorage
                       | None => (loadedLocal localStorage ++ [entryOfVersion input])%list
                       end)).
  { destruct (find _ (loadedLocal localStorage)) eqn:E; [assumption|].
    rewrite map_app. simpl.
    eapply Permutation_NoDup; [apply Permutation_cons_append|].
    constructor; [|assumption].
    intros Hin. apply in_map_iff in Hin. destruct Hin as [x [Hx Hin]].
    apply (find_none _ _ E) in Hin. apply optEqb_eq in Hx. congruence. }
  split; [exact H | now apply NoDup_map_filter].
Qed.

Lemma X11_add_keeps_paths_distinct_witness :
  exists returned stored,
    fst (addLocalVersion
           {| version := "0.0.1"; name := None; localPath := Some "/builds/e" |}
           (withLocal emptyStorage
              (Doc [entryOfVersion {| version := "0.0.0"; name := Some "dev";
                                      localPath := Some "/builds/e" |};
                    entryOfVersion {| version := "0.0.2"; name := None;
                                      localPath := Some "/builds/f" |}])))
    = Ok returned /\
    ls_local (snd (addLocalVersion
           {| version := "0.0.1"; name := None; localPath := Some "/builds/e" |}
           (withLocal emptyStorage
              (Doc [entryOfVersion {| version := "0.0.0"; name := Some "dev";
                                      localPath := Some "/builds/e" |};
                    entryOfVersion {| version := "0.0.2"; name := None;
                                      localPath := Some "/builds/f" |}]))))
    = Some (Doc stored) /\
    NoDup (map entry_localPath returned) /\
    NoDup (map entry_localPath stored).
Proof.
  apply X11_add_keeps_paths_distinct.
  simpl. constructor.
  - intros [H|[]]. discriminate.
  - constructor; [intros [] | constructor].
Defined.

(** X12: adding a version whose [version] is the empty string, under a
    [localPath] that no loaded entry has, to a store whose loaded entries
    are not legacy entries, makes the next load return the empty array
    and empty the store: every local version is lost. *)
Theorem X12_empty_version_empties_store :
  forall (localStorage : LocalStorage) (input : Version),
    version input = "" ->
    (forall e, In e (loadedLocal localStorage) ->
               entry_localPath e <> localPath input /\ legacy e = false) ->
    let added := snd (addLocalVersion input localStorage) in
    getLocalVersions added = (Ok [], withLocal added (Doc [])).
Proof.
  intros localStorage input Hv H added.
  assert (Hs : ls_local added
               = Some (Doc (filter keptLocally (loadedLocal localStorage)
                              ++ [entryOfVersion input])%list)).
  { subst added.
    destruct (getLocalVersions_loaded localStorage) as [after [Hl _]].
    rewrite (addLocalVersion_cases input _ _ _ Hl), find_path_none.
    - simpl. now rewrite filter_app.
    - intros e He. now apply H. }
  rewrite (load_unexpected _ _ Hs).
  - rewrite migrateVersions_none_legacy; [reflexivity|].
    apply forallb_forall. intros e He. apply in_app_or in He.
    destruct He as [He|[<-|[]]]; [|reflexivity].
    apply filter_In in He. destruct He as [He _].
    destruct (H e He) as [_ Hleg]. now rewrite Hleg.
  - apply missing_version_fails_format. exists (entryOfVersion input). split.
    + apply in_or_app. right. now left.
    + simpl. now rewrite Hv.
Qed.

Lemma X12_empty_version_witness :
  let first := {| version := "0.0.0"; name := Some "dev"; localPath := Some "/builds/e" |} in
  let bad := {| version := ""; name := Some "other"; localPath := Some "/builds/f" |} in
  let added := snd (addLocalVersion bad (withLocal emptyStorage (Doc [entryOfVersion first]))) in
  ls_local added = Some (Doc [entryOfVersion first; entryOfVersion bad]) /\
  getLocalVersions added = (Ok [], withLocal added (Doc [])).
Proof.
  cbv zeta. split; [reflexivity|].
  apply X12_empty_version_empties_store.
  - reflexivity.
  - intros e [<-|[]]. split; [discriminate | reflexivity].
Defined.

(** X13: [getLocalVersionForPath] never throws.  What it returns is the
    first loaded entry whose [localPath] is the path asked for; it returns
    [undefined] exactly when no loaded entry has that path, as when the
    local key is missing or unreadable. *)
Theorem X13_lookup_by_path :
  forall (localStorage : LocalStorage) (folderPath : string),
    exists found,
      fst (getLocalVersionForPath folderPath localStorage) = Ok found /\
      (forall e, found = Some e ->
         exists before rest,
           loadedLocal localStorage = (before ++ e :: rest)%list /\
           entry_localPath e = Some folderPath /\
           forall x, In x before -> entry_localPath x <> Some folderPath) /\
      (found = None <->
       forall e, In e (loadedLocal localStorage) -> entry_localPath e <> Some folderPath).
Proof.
  intros localStorage folderPath.
  destruct (getLocalVersions_loaded localStorage) as [after [Hl _]].
  unfold getLocalVersionForPath, bind. rewrite Hl. simpl.
  eexists. split; [reflexivity|].
  generalize (loadedLocal localStorage) as l. intros l. split.
  - induction l as [|a l IH]; simpl; intros e He; [discriminate|].
    destruct (optEqb (entry_localPath a) (Some folderPath)) eqn:E.
    + inversion He; subst. exists [], l. repeat split.
      * now apply optEqb_eq.
      * intros x [].
    + destruct (IH e He) as (before & rest & Hb & Hp & Hx).
      exists (a :: before), rest. rewrite Hb. repeat split; auto.
      intros x [<-|Hin]; [|now apply Hx].
      intros Heq. apply optEqb_eq in Heq. congruence.
  - split.
    + intros Hn e He Hp. apply (find_none _ _ Hn) in He.
      apply optEqb_eq in Hp. congruence.
    + apply find_path_none.
Qed.

(** ** The default version, further *)

Lemma latestStable_Ok (versions : list RunnableVersion) (v : string) :
  latestStableVersion versions = Ok v ->
  exists (c : RunnableVersion) sv,
    In c versions /\ includes "-" (version c) = false /\
    semver.parse (version c) = Some sv /\ v = semver.version sv.
Proof.
  unfold latestStableVersion.
  destruct (JSArray.sort newestFirst _) as [sorted|e] eqn:Es; simpl; [|discriminate].
  destruct sorted as [|[sv|] rest]; simpl; try discriminate.
  intros H. inversion H; subst.
  apply sort_perm in Es.
  assert (Hin : In (Some sv) (Some sv :: rest)) by now left.
  apply (Permutation_in _ (Permutation_sym Es)) in Hin.
  apply in_map_iff in Hin. destruct Hin as [c [Hp Hc]].
  apply filter_In in Hc. destruct Hc as [Hc Hh].
  apply negb_true_iff in Hh. now exists c, sv.
Qed.

Lemma getDefaultVersion_cases (localStorage : LocalStorage)
    (versions : list RunnableVersion) :
  (exists key, ls_version localStorage = Some key /\ key <> "" /\
               (exists c : RunnableVersion, In c versions /\ version c = key) /\
               getDefaultVersion localStorage versions = Ok key) \/
  getDefaultVersion localStorage versions = latestStableVersion versions.
Proof.
  unfold getDefaultVersion.
  destruct (ls_version localStorage) as [key|]; [|now right].
  destruct (truthy key) eqn:T; [|now right]. simpl.
  destruct (existsb _ versions) eqn:E; [|now right].
  left. exists key. apply truthy_true in T.
  apply existsb_exists in E. destruct E as [c [Hc Hv]].
  apply String.eqb_eq in Hv. repeat split; eauto.
Qed.

(** X14: whatever [getDefaultVersion] returns is either the stored
    preference, non-empty and the version of a candidate, or the canonical
    text of the semantic version of a candidate without '-'; it returns
    nothing else. *)
Theorem X14_default_version_origin :
  forall (localStorage : LocalStorage) (versions : list RunnableVersion) (v : string),
    getDefaultVersion localStorage versions = Ok v ->
    (ls_version localStorage = Some v /\ v <> "" /\
     exists c : RunnableVersion, In c versions /\ version c = v) \/
    (exists (c : RunnableVersion) sv,
        In c versions /\ includes "-" (version c) = false /\
        semver.parse (version c) = Some sv /\ v = semver.version sv).
Proof.
  intros localStorage versions v H.
  destruct (getDefaultVersion_cases localStorage versions)
    as [[key (Hk & Hne & Hc & Hr)]|Hr]; rewrite Hr in H.
  - inversion H; subst. now left.
  - right. now apply latestStable_Ok.
Qed.

Lemma X14_default_version_origin_witness :
  (ls_version emptyStorage = Some "10.0.0" /\ "10.0.0" <> "" /\
   exists c : RunnableVersion,
     In c [candidate "v10.0.0+build"; candidate "11.0.0-beta.1"] /\ version c = "10.0.0") \/
  (exists (c : RunnableVersion) sv,
      In c [candidate "v10.0.0+build"; candidate "11.0.0-beta.1"] /\
      includes "-" (version c) = false /\
      semver.parse (version c) = Some sv /\ "10.0.0" = semver.version sv).
Proof.
  apply X14_default_version_origin. reflexivity.
Defined.

Lemma all_append (p : ascii -> bool) (a b : string) :
  all p (a ++ b) = all p a && all p b.
Proof.
  induction a as [|c a IH]; simpl; [reflexivity|].
  now rewrite IH, andb_assoc.
Qed.

Lemma all_impl (p q : ascii -> bool) (s : string) :
  (forall c, p c = true -> q c = true) -> all p s = true -> all q s = true.
Proof.
  intros H. induction s as [|c s IH]; simpl; [reflexivity|].
  intros E. apply andb_true_iff in E. destruct E as [E1 E2].
  now rewrite (H c E1), IH.
Qed.

Lemma all_contains (p : ascii -> bool) (search s : string) :
  all p s = true -> contains search s -> all p search = true.
Proof.
  intros H [pre [post ->]]. rewrite !all_append in H.
  apply andb_true_iff in H. destruct H as [_ H].
  apply andb_true_iff in H. tauto.
Qed.

Lemma release_version_chars (sv : semver.SemVer) :
  release sv -> all isDigitOrDot (semver.version sv) = true.
Proof.
  intros (_ & _ & _ & _ & ->). unfold semver.format.
  assert (D : forall n, all isDigitOrDot (semver.toString n) = true).
  { intros n. apply (all_impl isDigit); [|apply toString_digits].
    intros c Hc. unfold isDigitOrDot. now rewrite Hc. }
  rewrite !all_append. simpl. now rewrite !D.
Qed.

Lemma not_in_digits_and_dots (search s : string) :
  all isDigitOrDot s = true -> all isDigitOrDot search = false ->
  includes search s = false.
Proof.
  intros Hs Ht. destruct (includes search s) eqn:E; [|reflexivity].
  apply includes_spec in E. apply (all_contains _ _ _ Hs) in E. congruence.
Qed.

(** X15: a default version that is not the stored preference is made of
    digits and dots only; it has no '-' and its release channel is
    stable. *)
Theorem X15_default_version_is_stable :
  forall (localStorage : LocalStorage) (versions : list RunnableVersion) (v : string),
    getDefaultVersion localStorage versions = Ok v ->
    ls_version localStorage <> Some v ->
    all isDigitOrDot v = true /\
    includes "-" v = false /\
    getReleaseChannel (inr v) = ElectronReleaseChannel.stable.
Proof.
  intros localStorage versions v H Hk.
  destruct (getDefaultVersion_cases localStorage versions)
    as [[key (Hkey & _ & _ & Hr)]|Hr]; rewrite Hr in H.
  - inversion H; subst. contradiction.
  - apply latestStable_Ok in H. destruct H as (c & sv & _ & Hh & Hp & ->).
    pose proof (release_version_chars sv (parse_release _ _ Hh Hp)) as D.
    split; [exact D|]. split.
    + now apply not_in_digits_and_dots.
    + unfold getReleaseChannel.
      now rewrite !(not_in_digits_and_dots _ _ D).
Qed.

Lemma X15_default_version_is_stable_witness :
  all isDigitOrDot "10.0.0" = true /\
  includes "-" "10.0.0" = false /\
  getReleaseChannel (inr "10.0.0") = ElectronReleaseChannel.stable.
Proof.
  apply (X15_default_version_is_stable
           {| ls_version := Some "11.0.0-nightly.1"; ls_local := None; ls_known := None |}
           [candidate "v10.0.0+beta"; candidate "11.0.0-beta.1"]).
  - reflexivity.
  - discriminate.
Defined.

Lemma preference_returned (localStorage : LocalStorage)
    (versions : list RunnableVersion) (key : string) :
  ls_version localStorage = Some key -> key <> "" ->
  forall c : RunnableVersion, In c versions -> version c = key ->
  getDefaultVersion localStorage versions = Ok key.
Proof.
  intros Hk Hne c Hc Hv. unfold getDefaultVersion. rewrite Hk.
  apply truthy_true in Hne. rewrite Hne. simpl.
  assert (E : existsb (fun v : RunnableVersion => (version v =? key)%string) versions = true).
  { apply existsb_exists. exists c. split; [assumption|]. now apply String.eqb_eq. }
  now rewrite E.
Qed.

Lemma sort_with_null (l : list (option semver.SemVer)) :
  In None l -> (2 <= length l)%nat -> JSArray.sort newestFirst l = Throw TypeError.
Proof.
  intros Hn Hlen.
  destruct (JSArray.sort newestFirst l) as [sorted|e] eqn:Es.
  - destruct (sort_compared _ _ _ Es Hlen None Hn) as [y [w [H|H]]];
      apply newestFirst_Ok in H; tauto.
  - apply sort_throw in Es. destruct Es as [a [b Hab]].
    apply newestFirst_Throw in Hab. now subst e.
Qed.

(** X16: when no stored preference matches, two or more candidates have
    no '-', and one of these is not a semantic version, [getDefaultVersion]
    throws a [TypeError], the one [semver.compare] throws for [null]. *)
Theorem X16_invalid_stable_candidate_throws :
  forall (localStorage : LocalStorage) (versions : list RunnableVersion),
    noPreference localStorage versions ->
    (exists c : RunnableVersion,
        In c versions /\ includes "-" (version c) = false /\
        semver.parse (version c) = None) ->
    (2 <= length (filter (fun v : RunnableVersion => negb (includes "-" (version v)))
                    versions))%nat ->
    getDefaultVersion localStorage versions = Throw TypeError.
Proof.
  intros localStorage versions Hno [c (Hc & Hh & Hp)] Hlen.
  rewrite (noPreference_latestStable _ _ Hno). unfold latestStableVersion.
  rewrite sort_with_null; [reflexivity | |now rewrite length_map].
  rewrite <- Hp. apply in_map_iff. exists c. split; [reflexivity|].
  apply filter_In. split; [assumption|]. now rewrite Hh.
Qed.

Lemma X16_invalid_stable_candidate_witness :
  getDefaultVersion emptyStorage
    [candidate "10.0.0"; candidate "11.0.0-beta.1"; candidate "latest"]
  = Throw TypeError.
Proof.
  apply X16_invalid_stable_candidate_throws.
  - intros key v Hk. discriminate.
  - exists (candidate "latest"). split; [right; right; left; reflexivity|].
    split; reflexivity.
  - simpl. lia.
Defined.

Lemma latestStable_corrupted (versions : list RunnableVersion) :
  latestStableVersion versions = Throw (Error "Corrupted version data") <->
  filter hyphenFree versions = [] \/
  exists c : RunnableVersion,
    filter hyphenFree versions = [c] /\ semver.parse (version c) = None.
Proof.
  unfold latestStableVersion. fold hyphenFree.
  set (stable := filter hyphenFree versions). split.
  - destruct (JSArray.sort newestFirst _) as [sorted|e] eqn:Es; simpl.
    + destruct sorted as [|[sv|] rest]; simpl; [| discriminate |]; intros _.
      * apply sort_perm, Permutation_sym, Permutation_nil, map_eq_nil in Es. now left.
      * right. pose proof (sort_perm _ _ _ Es) as Hp.
        assert (Hn : In None (map (fun v : RunnableVersion => semver.parse (version v)) stable)).
        { eapply Permutation_in; [apply Permutation_sym, Hp | now left]. }
        destruct stable as [|c [|c' stable']].
        -- destruct Hn.
        -- exists c. split; [reflexivity|]. now destruct Hn as [Hn|[]].
        -- rewrite sort_with_null in Es; [discriminate | exact Hn | simpl; lia].
    + intros H. inversion H; subst.
      apply sort_throw in Es. destruct Es as [a [b Hab]].
      apply newestFirst_Throw in Hab. discriminate.
  - intros [->|[c [-> Hc]]]; simpl; [reflexivity|]. now rewrite Hc.
Qed.

(** X17: [getDefaultVersion] throws nothing but "Corrupted version data"
    and the [TypeError] of [semver.compare]; it throws "Corrupted version
    data" exactly when no non-empty stored preference is the version of a
    candidate and the candidates without '-' are none, or a single one
    that is not a semantic version. *)
Theorem X17_default_version_errors :
  forall (localStorage : LocalStorage) (versions : list RunnableVersion),
    (forall e, getDefaultVersion localStorage versions = Throw e ->
               e = Error "Corrupted version data" \/ e = TypeError) /\
    (getDefaultVersion localStorage versions = Throw (Error "Corrupted version data") <->
     (forall key (c : RunnableVersion),
         ls_version localStorage = Some key -> key <> "" -> In c versions ->
         version c <> key) /\
     (filter (fun v : RunnableVersion => negb (includes "-" (version v))) versions = [] \/
      exists c : RunnableVersion,
        filter (fun v : RunnableVersion => negb (includes "-" (version v))) versions = [c] /\
        semver.parse (version c) = None)).
Proof.
  intros localStorage versions. split.
  - intros e H.
    destruct (getDefaultVersion_cases localStorage versions)
      as [[key (_ & _ & _ & Hr)]|Hr]; rewrite Hr in H; [discriminate|].
    unfold latestStableVersion in H.
    destruct (JSArray.sort newestFirst _) as [sorted|e'] eqn:Es; simpl in H.
    + destruct sorted as [|[sv|] rest]; simpl in H; inversion H; now left.
    + inversion H; subst. apply sort_throw in Es. destruct Es as [a [b Hab]].
      apply newestFirst_Throw in Hab. now right.
  - split.
    + intros H.
      destruct (getDefaultVersion_cases localStorage versions)
        as [[key (_ & _ & _ & Hr)]|Hr]; rewrite Hr in H; [discriminate|].
      split; [|now apply latestStable_corrupted].
      intros key c Hk Hne Hc Hv.
      rewrite (preference_returned localStorage versions key Hk Hne c Hc Hv) in Hr.
      rewrite <- Hr in H. discriminate.
    + intros [Hno Hs].
      destruct (getDefaultVersion_cases localStorage versions)
        as [[key (Hk & Hne & [c [Hc Hv]] & _)]|Hr].
      * now destruct (Hno key c Hk Hne Hc).
      * rewrite Hr. now apply latestStable_corrupted.
Qed.

(** ** The oldest supported major, further *)

Lemma oldest_cases (NUM_STABLE_BRANCHES : option string) (knownVersions : list string) :
  exists sorted,
    Permutation (map JSNumber.parseInt (filter (endsWith ".0.0") knownVersions)) sorted /\
    getOldestSupportedMajor NUM_STABLE_BRANCHES knownVersions
    = Ok (JSArray.shift (JSArray.slice (- NUM_BRANCHES NUM_STABLE_BRANCHES) sorted)).
Proof.
  unfold getOldestSupportedMajor. rewrite branch_markers.
  destruct (sort_numbers_total
              (map JSNumber.parseInt (filter (endsWith ".0.0") knownVersions)))
    as [sorted Es].
  exists sorted. split; [now apply sort_perm in Es|]. now rewrite Es.
Qed.

Lemma shift_slice {A : Type} (start : Z) (l : list A) :
  JSArray.shift (JSArray.slice start l) =
  nth_error l (Z.to_nat (if start <? 0
                         then Z.max (Z.of_nat (length l) + start) 0
                         else Z.min start (Z.of_nat (length l)))).
Proof. unfold JSArray.shift, JSArray.slice. apply hd_error_skipn. Qed.

(** X18: with a supported-branch count of one or more,
    [getOldestSupportedMajor] returns [undefined] exactly when no known
    version ends in ".0.0". *)
Theorem X18_undefined_iff_no_marker :
  forall (NUM_STABLE_BRANCHES : option string) (knownVersions : list string),
    1 <= NUM_BRANCHES NUM_STABLE_BRANCHES ->
    (getOldestSupportedMajor NUM_STABLE_BRANCHES knownVersions = Ok None <->
     forall v, In v knownVersions -> endsWith ".0.0" v = false).
Proof.
  intros env knownVersions HN.
  destruct (oldest_cases env knownVersions) as [sorted [Hp ->]].
  rewrite shift_slice.
  destruct (Z.ltb_spec (- NUM_BRANCHES env) 0) as [_|H]; [|lia].
  pose proof (Permutation_length Hp) as Hlen. rewrite length_map in Hlen.
  split.
  - intros H. inversion H as [Hn]. apply nth_error_None in Hn.
    assert (E : filter (endsWith ".0.0") knownVersions = []).
    { destruct (filter (endsWith ".0.0") knownVersions); [reflexivity|].
      simpl in Hlen. lia. }
    intros v Hv. destruct (endsWith ".0.0" v) eqn:Ev; [|reflexivity].
    assert (Hin : In v (filter (endsWith ".0.0") knownVersions))
      by (apply filter_In; tauto).
    rewrite E in Hin. destruct Hin.
  - intros H.
    assert (E : filter (endsWith ".0.0") knownVersions = []).
    { destruct (filter (endsWith ".0.0") knownVersions) as [|v l] eqn:F; [reflexivity|].
      assert (Hin : In v (filter (endsWith ".0.0") knownVersions)) by (rewrite F; now left).
      apply filter_In in Hin. destruct Hin as [Hin Hv]. rewrite (H v Hin) in Hv.
      discriminate. }
    rewrite E in Hlen. simpl in Hlen. destruct sorted; [|discriminate].
    now destruct (Z.to_nat _).
Qed.

Lemma X18_undefined_iff_no_marker_witness :
  getOldestSupportedMajor (Some "2") ["12.0.1"; "11.2.0"; "v10.0.0-beta.1"] = Ok None.
Proof.
  apply X18_undefined_iff_no_marker.
  - vm_compute. discriminate.
  - intros v [<-|[<-|[<-|[]]]]; reflexivity.
Defined.

(** X19: [getOldestSupportedMajor] never throws, and a number it returns
    is what [parseInt] makes of a known version that ends in ".0.0". *)
Theorem X19_oldest_major_is_a_marker :
  forall (NUM_STABLE_BRANCHES : option string) (knownVersions : list string),
    exists r,
      getOldestSupportedMajor NUM_STABLE_BRANCHES knownVersions = Ok r /\
      forall x, r = Some x ->
        exists v, In v knownVersions /\ endsWith ".0.0" v = true /\
                  x = JSNumber.parseInt v.
Proof.
  intros env knownVersions.
  destruct (oldest_cases env knownVersions) as [sorted [Hp ->]].
  eexists. split; [reflexivity|].
  intros x Hx. rewrite shift_slice in Hx. apply nth_error_In in Hx.
  apply (Permutation_in _ (Permutation_sym Hp)) in Hx.
  apply in_map_iff in Hx. destruct Hx as [v [Hv Hin]].
  apply filter_In in Hin. exists v. now repeat split.
Qed.

Lemma filter_perm {A : Type} (f : A -> bool) (l1 l2 : list A) :
  Permutation l1 l2 -> Permutation (filter f l1) (filter f l2).
Proof.
  induction 1 as [|a l1 l2 _ IH|a b l|l1 l2 l3 _ IH1 _ IH2]; simpl.
  - constructor.
  - destruct (f a); [now constructor | assumption].
  - destruct (f a), (f b); try apply Permutation_refl. apply perm_swap.
  - eapply perm_trans; eassumption.
Qed.

Lemma map_Num_inj (l1 l2 : list Z) : map Num l1 = map Num l2 -> l1 = l2.
Proof.
  revert l2; induction l1 as [|a l1 IH]; intros [|b l2] H; simpl in H;
    try discriminate; [reflexivity|].
  inversion H; subst. now rewrite (IH l2).
Qed.

Lemma sorted_unique (l1 l2 : list Z) :
  Sorted Z.le l1 -> Sorted Z.le l2 -> Permutation l1 l2 -> l1 = l2.
Proof.
  intros H1 H2. apply Sorted_StronglySorted in H1; [|exact Z.le_trans].
  apply Sorted_StronglySorted in H2; [|exact Z.le_trans].
  revert l2 H2. induction H1 as [|a l1 Hs1 IH Ha]; intros l2 H2 Hp.
  - apply Permutation_nil in Hp. now subst.
  - destruct H2 as [|b l2 Hs2 Hb].
    + apply Permutation_sym, Permutation_nil in Hp. discriminate.
    + assert (E : a = b).
      { rewrite Forall_forall in Ha, Hb.
        assert (Hab : In a (b :: l2)) by (eapply Permutation_in; [exact Hp | now left]).
        assert (Hba : In b (a :: l1))
          by (eapply Permutation_in; [apply Permutation_sym, Hp | now left]).
        destruct Hab as [->|Hab]; [reflexivity|].
        destruct Hba as [->|Hba]; [reflexivity|].
        specialize (Ha b Hba). specialize (Hb a Hab). lia. }
      subst b. apply Permutation_cons_inv in Hp. now rewrite (IH l2 Hs2 Hp).
Qed.

(** The sorted majors of a catalog whose branch markers all parse. *)
Lemma oldest_numeric (NUM_STABLE_BRANCHES : option string)
    (knownVersions : list string) (majors : list Z) :
  map JSNumber.parseInt (filter (endsWith ".0.0") knownVersions) = map Num majors ->
  exists sorted,
    Permutation majors sorted /\ Sorted Z.le sorted /\
    getOldestSupportedMajor NUM_STABLE_BRANCHES knownVersions
    = Ok (option_map Num
            (nth_error sorted
               (Z.to_nat
                  (if - NUM_BRANCHES NUM_STABLE_BRANCHES <? 0
                   then Z.max (Z.of_nat (length sorted)
                               + - NUM_BRANCHES NUM_STABLE_BRANCHES) 0
                   else Z.min (- NUM_BRANCHES NUM_STABLE_BRANCHES)
                          (Z.of_nat (length sorted)))))).
Proof.
  intros Hm. unfold getOldestSupportedMajor. rewrite branch_markers, Hm.
  destruct (sort_majors majors) as [sorted [Es [Hp Hs]]]. rewrite Es. simpl.
  exists sorted. rewrite shift_slice, length_map, nth_error_map. now repeat split.
Qed.

(** X20: when every known version that ends in ".0.0" starts with a
    number, the result of [getOldestSupportedMajor] does not depend on the
    order of the known versions. *)
Theorem X20_catalog_order_irrelevant :
  forall (NUM_STABLE_BRANCHES : option string) (known1 known2 : list string)
         (majors : list Z),
    Permutation known1 known2 ->
    map JSNumber.parseInt (filter (endsWith ".0.0") known1) = map Num majors ->
    getOldestSupportedMajor NUM_STABLE_BRANCHES known1
    = getOldestSupportedMajor NUM_STABLE_BRANCHES known2.
Proof.
  intros env known1 known2 majors Hp Hm.
  assert (Hm2 : exists majors2,
             map JSNumber.parseInt (filter (endsWith ".0.0") known2) = map Num majors2 /\
             Permutation majors majors2).
  { pose proof (Permutation_map JSNumber.parseInt (filter_perm (endsWith ".0.0") _ _ Hp))
      as Hq.
    rewrite Hm in Hq. apply Permutation_sym, Permutation_map_inv in Hq.
    destruct Hq as [majors2 [E Hq]]. exists majors2. now split. }
  destruct Hm2 as [majors2 [Hm2 Hq]].
  destruct (oldest_numeric env known1 majors Hm) as [s1 (P1 & S1 & ->)].
  destruct (oldest_numeric env known2 majors2 Hm2) as [s2 (P2 & S2 & ->)].
  assert (E : s1 = s2).
  { apply sorted_unique; auto.
    eapply perm_trans; [apply Permutation_sym, P1|].
    eapply perm_trans; [exact Hq | exact P2]. }
  now subst.
Qed.

Lemma X20_catalog_order_witness :
  getOldestSupportedMajor (Some "2") ["10.0.0"; "12.0.0"; "11.0.0"; "11.1.0"]
  = getOldestSupportedMajor (Some "2") ["12.0.0"; "11.0.0"; "11.1.0"; "10.0.0"].
Proof.
  apply (X20_catalog_order_irrelevant (Some "2") _ _ [10; 12; 11]).
  - apply (Permutation_cons_append ["12.0.0"; "11.0.0"; "11.1.0"] "10.0.0").
  - reflexivity.
Defined.

Lemma sorted_nth_le (l : list Z) (i j : nat) (a b : Z) :
  StronglySorted Z.le l -> (i <= j)%nat ->
  nth_error l i = Some a -> nth_error l j = Some b -> a <= b.
Proof.
  intros Hs. revert i j. induction Hs as [|x l Hs IH Hx]; intros i j Hij Ha Hb.
  - destruct i; discriminate.
  - destruct i as [|i], j as [|j]; simpl in *.
    + inversion Ha; inversion Hb; subst. lia.
    + inversion Ha; subst. apply nth_error_In in Hb.
      rewrite Forall_forall in Hx. now apply Hx.
    + lia.
    + apply (IH i j); auto. lia.
Qed.

(** X21: when every known version that ends in ".0.0" parses to a
    finite number, a larger supported-branch count never gives a newer oldest
    supported major: for two positive counts, the major returned for the
    larger one is not above the one returned for the smaller. *)
Theorem X21_more_branches_older_major :
  forall (setting1 setting2 : option string) (knownVersions : list string)
         (majors : list Z) (m1 m2 : Z),
    map JSNumber.parseInt (filter (endsWith ".0.0") knownVersions) = map Num majors ->
    1 <= NUM_BRANCHES setting1 <= NUM_BRANCHES setting2 ->
    getOldestSupportedMajor setting1 knownVersions = Ok (Some (Num m1)) ->
    getOldestSupportedMajor setting2 knownVersions = Ok (Some (Num m2)) ->
    m2 <= m1.
Proof.
  intros e1 e2 knownVersions majors m1 m2 Hm HN H1 H2.
  destruct (oldest_numeric e1 knownVersions majors Hm) as [s1 (P1 & S1 & E1)].
  destruct (oldest_numeric e2 knownVersions majors Hm) as [s2 (P2 & S2 & E2)].
  assert (E : s1 = s2).
  { apply sorted_unique; auto.
    eapply perm_trans; [apply Permutation_sym, P1 | exact P2]. }
  subst s2. rewrite E1 in H1. rewrite E2 in H2.
  destruct (Z.ltb_spec (- NUM_BRANCHES e1) 0); [|lia].
  destruct (Z.ltb_spec (- NUM_BRANCHES e2) 0); [|lia].
  destruct (nth_error s1 _) as [a|] eqn:Na in H1; [|discriminate].
  destruct (nth_error s1 _) as [b|] eqn:Nb in H2; [|discriminate].
  inversion H1; inversion H2; subst.
  apply Sorted_StronglySorted in S1; [|exact Z.le_trans].
  eapply (sorted_nth_le s1 _ _ _ _ S1); [|exact Nb|exact Na]. lia.
Qed.

Lemma X21_more_branches_witness :
  getOldestSupportedMajor (Some "2") ["10.0.0"; "12.0.0"; "11.0.0"; "11.1.0"; "9.0.0"]
  = Ok (Some (Num 11)) /\
  getOldestSupportedMajor (Some "3") ["10.0.0"; "12.0.0"; "11.0.0"; "11.1.0"; "9.0.0"]
  = Ok (Some (Num 10)) /\
  10 <= 11.
Proof.
  split; [reflexivity|]. split; [reflexivity|].
  apply (X21_more_branches_older_major (Some "2") (Some "3")
           ["10.0.0"; "12.0.0"; "11.0.0"; "11.1.0"; "9.0.0"] [10; 12; 11; 9] 11 10).
  - reflexivity.
  - vm_compute. split; discriminate.
  - reflexivity.
  - reflexivity.
Defined.

(** ** Released majors *)

Lemma parse_format (s : string) (sv : semver.SemVer) :
  semver.parse s = Some sv ->
  0 <= semver.major sv /\
  semver.version sv =
    semver.format (semver.major sv) (semver.minor sv) (semver.patch sv)
      (semver.prerelease sv).
Proof.
  unfold semver.parse, semver.new_SemVer.
  destruct (semver.MAX_LENGTH <? String.length s)%nat; [discriminate|].
  destruct (semver.FULL (trim s)) as [[[[[m1 m2] m3] m4] m5]|]; [|discriminate].
  destruct (_ || _) eqn:B1; [discriminate|].
  destruct (_ || _) in |- *; [discriminate|].
  destruct (_ || _) in |- *; [discriminate|].
  intros H. inversion H; subst; clear H. simpl.
  apply orb_false_iff in B1. destruct B1 as [_ B1]. apply Z.ltb_ge in B1.
  split; [exact B1 | reflexivity].
Qed.

(** The canonical text begins with the major number and a dot. *)
Lemma format_major (a b c : Z) (pre : list semver.identifier) :
  exists rest, semver.format a b c pre = semver.toString a ++ "." ++ rest.
Proof.
  unfold semver.format. destruct pre as [|i pre].
  - eexists. reflexivity.
  - eexists. rewrite append_assoc. simpl. reflexivity.
Qed.

Lemma startsWith_major (m M : Z) (rest : string) :
  0 <= m -> 0 <= M ->
  startsWith (Number_toString m ++ ".") (semver.toString M ++ "." ++ rest) = true <->
  M = m.
Proof.
  intros Hm HM. unfold Number_toString.
  destruct (Z.ltb_spec m 0) as [H|_]; [lia|].
  rewrite startsWith_spec. split.
  - intros [post H]. rewrite append_assoc in H. simpl in H.
    apply digits_dot_split in H; try apply toString_digits.
    destruct H as [H _]. now apply toString_inj in H.
  - intros ->. exists rest. now rewrite append_assoc.
Qed.

(** X22: when every known version is the canonical text of a semantic
    version, [isReleasedMajor] of a major that is not negative is true
    exactly when some known version has that major: 1 is not released
    because 12.0.0 is. *)
Theorem X22_released_major_exact :
  forall (major : Z) (knownVersions : list string),
    0 <= major ->
    (forall v, In v knownVersions -> canonical v) ->
    (isReleasedMajor major knownVersions = true <->
     exists v sv, In v knownVersions /\ semver.parse v = Some sv /\
                  semver.major sv = major).
Proof.
  intros major knownVersions Hm Hc.
  assert (Hv : forall v sv, semver.parse v = Some sv -> semver.version sv = v ->
             (startsWith (Number_toString major ++ ".") v = true <->
              semver.major sv = major)).
  { intros v sv Hp Hv. destruct (parse_format _ _ Hp) as [HM Hf].
    destruct (format_major (semver.major sv) (semver.minor sv) (semver.patch sv)
                (semver.prerelease sv)) as [rest Hr].
    rewrite <- Hv, Hf, Hr. now apply startsWith_major. }
  unfold isReleasedMajor, getReleasedVersions. rewrite existsb_exists. split.
  - intros [ver [Hin Hs]]. apply in_map_iff in Hin. destruct Hin as [v [<- Hin]].
    simpl in Hs. destruct (Hc v Hin) as [sv [Hp Hsv]].
    exists v, sv. repeat split; auto. now apply (Hv v sv Hp Hsv).
  - intros [v [sv (Hin & Hp & HM)]].
    exists {| version := v; name := None; localPath := None |}. split.
    + apply in_map_iff. now exists v.
    + simpl. destruct (Hc v Hin) as [sv' [Hp' Hsv']].
      rewrite Hp in Hp'. inversion Hp'; subst sv'.
      now apply (Hv v sv Hp Hsv').
Qed.

Lemma X22_released_major_witness :
  isReleasedMajor 12 ["12.0.0"; "12.0.1"; "13.0.0-beta.2"] = true /\
  (isReleasedMajor 1 ["12.0.0"; "12.0.1"; "13.0.0-beta.2"] = true <->
   exists v sv, In v ["12.0.0"; "12.0.1"; "13.0.0-beta.2"] /\
                semver.parse v = Some sv /\ semver.major sv = 1).
Proof.
  assert (Hc : forall v, In v ["12.0.0"; "12.0.1"; "13.0.0-beta.2"] -> canonical v).
  { intros v [<-|[<-|[<-|[]]]]; eexists; split; reflexivity. }
  split.
  - apply (proj2 (X22_released_major_exact 12 _ ltac:(lia) Hc)).
    exists "12.0.0". eexists. split; [now left | split; reflexivity].
  - apply (X22_released_major_exact 1 _ ltac:(lia) Hc).
Defined.

(** ** Runnable versions *)

Lemma run_fsBind {A B : Type} (disk : string -> bool) (m : FS A) (k : A -> FS B) :
  run disk (fsBind m k) = run disk (k (run disk m)).
Proof. induction m as [a|path k' IH]; simpl; [reflexivity | apply IH]. Qed.

Lemma probes_fsBind {A B : Type} (disk : string -> bool) (m : FS A) (k : A -> FS B) :
  probes disk (fsBind m k) = (probes disk m ++ probes disk (k (run disk m)))%list.
Proof.
  induction m as [a|path k' IH]; simpl; [reflexivity|]. now rewrite IH.
Qed.

Lemma run_mapFS {A B : Type} (disk : string -> bool) (f : A -> FS B) (l : list A) :
  run disk (mapFS f l) = map (fun a => run disk (f a)) l.
Proof.
  induction l as [|a l IH]; simpl; [reflexivity|].
  rewrite run_fsBind, run_fsBind. simpl. now rewrite IH.
Qed.

Lemma probes_mapFS {A B : Type} (disk : string -> bool) (f : A -> FS B) (l : list A) :
  probes disk (mapFS f l) = flat_map (fun a => probes disk (f a)) l.
Proof.
  induction l as [|a l IH]; simpl; [reflexivity|].
  rewrite probes_fsBind, probes_fsBind. simpl. now rewrite app_nil_r, IH.
Qed.

Lemma makeRunnable_run (getExecPath normalizeVersion : string -> string)
    (disk : string -> bool) (v : Version) :
  run disk (makeRunnable getExecPath normalizeVersion v) =
  {| ver := {| version := normalizeVersion (version v);
               name := name v; localPath := localPath v |};
     source := if truthyOpt (localPath v) then VersionSource.local
               else VersionSource.remote;
     state := match localPath v with
              | Some p => if disk (getExecPath p) then InstallState.installed
                          else InstallState.missing
              | None => InstallState.missing
              end |}.
Proof.
  unfold makeRunnable, getVersionState. destruct (localPath v) as [p|]; simpl;
    [now destruct (disk (getExecPath p)) | reflexivity].
Qed.

Lemma makeRunnable_probes (getExecPath normalizeVersion : string -> string)
    (disk : string -> bool) (v : Version) :
  probes disk (makeRunnable getExecPath normalizeVersion v) =
  match localPath v with Some p => [getExecPath p] | None => [] end.
Proof.
  unfold makeRunnable, getVersionState. now destruct (localPath v).
Qed.

(** X23: of an array of runnable versions made by [makeRunnable],
    [saveLocalVersions] stores exactly those whose [localPath] is a
    non-empty string, in their order; versions without a [localPath], as
    all known versions are, never reach the local store. *)
Theorem X23_saving_runnable_versions :
  forall (getExecPath normalizeVersion : string -> string) (disk : string -> bool)
         (versions : list Version) (localStorage : LocalStorage),
    let runnable :=
      map (fun v => run disk (makeRunnable getExecPath normalizeVersion v)) versions in
    saveLocalVersions (map entryOfRunnable runnable) localStorage
    = (Ok tt,
       withLocal localStorage
         (Doc (map entryOfRunnable
                 (filter (fun r : RunnableVersion => truthyOpt (localPath r)) runnable))))
    /\
    forall knownVersions,
      versions = getReleasedVersions knownVersions ->
      saveLocalVersions (map entryOfRunnable runnable) localStorage
      = (Ok tt, withLocal localStorage (Doc [])).
Proof.
  intros getExecPath normalizeVersion disk versions localStorage runnable.
  assert (E : filter keptLocally (map entryOfRunnable runnable)
              = map entryOfRunnable
                  (filter (fun r : RunnableVersion => truthyOpt (localPath r)) runnable)).
  { subst runnable. induction versions as [|v l IH]; simpl; [reflexivity|].
    rewrite makeRunnable_run. unfold keptLocally at 1. simpl.
    destruct (truthyOpt (localPath v)); simpl; now rewrite IH. }
  unfold saveLocalVersions, saveVersions, setItem, JSON_stringify. rewrite E.
  split; [reflexivity|].
  intros knownVersions Hk. unfold withLocal.
  replace (filter (fun r : RunnableVersion => truthyOpt (localPath r)) runnable)
    with (@nil RunnableVersion); [reflexivity|].
  subst runnable versions. clear E. unfold getReleasedVersions.
  induction knownVersions as [|k l IH]; [reflexivity|].
  cbn [map]. rewrite makeRunnable_run. simpl. exact IH.
Qed.

Lemma X23_saving_runnable_witness :
  saveLocalVersions
    (map entryOfRunnable
       (map (fun v => run (fun _ => true) (makeRunnable linuxExecPath (fun s => s) v))
          (getReleasedVersions ["12.0.0"; "11.0.0"])))
    emptyStorage
  = (Ok tt, withLocal emptyStorage (Doc [])).
Proof.
  apply (proj2 (X23_saving_runnable_versions linuxExecPath (fun s => s) (fun _ => true)
                  (getReleasedVersions ["12.0.0"; "11.0.0"]) emptyStorage)
           ["12.0.0"; "11.0.0"]).
  reflexivity.
Defined.

(** X24: [getElectronVersions] never throws.  It returns the known
    versions in their order, followed by the loaded local versions in
    theirs, each with its version normalized, none left out or merged; it
    asks the disk about the executable of each local version that has a
    [localPath], in order, and about nothing else; every known version
    comes out with source remote and state missing. *)
Theorem X24_assembled_versions :
  forall (getExecPath normalizeVersion : string -> string)
         (knownVersions : list string) (localStorage : LocalStorage)
         (disk : string -> bool),
    exists assembled,
      fst (getElectronVersions getExecPath normalizeVersion knownVersions localStorage)
      = Ok assembled /\
      map (fun r : RunnableVersion => version r) (run disk assembled)
      = (map normalizeVersion knownVersions
         ++ map (fun e => normalizeVersion (version (asVersion e)))
              (loadedLocal localStorage))%list /\
      probes disk assembled = map getExecPath (localPaths (loadedLocal localStorage)) /\
      firstn (length knownVersions) (run disk assembled)
      = map (fun v => {| ver := {| version := normalizeVersion v;
                                   name := None; localPath := None |};
                         source := VersionSource.remote;
                         state := InstallState.missing |}) knownVersions.
Proof.
  intros getExecPath normalizeVersion knownVersions localStorage disk.
  destruct (getLocalVersions_loaded localStorage) as [after [Hl _]].
  unfold getElectronVersions, bind. rewrite Hl. simpl.
  eexists. split; [reflexivity|].
  generalize (loadedLocal localStorage) as loaded. intros loaded.
  rewrite run_mapFS, probes_mapFS, map_app, flat_map_app, map_app.
  unfold getReleasedVersions. rewrite !map_map.
  split; [|split].
  - f_equal; apply map_ext; intros a; now rewrite makeRunnable_run.
  - replace (flat_map _ (map _ knownVersions)) with (@nil string).
    + cbn [app]. unfold localPaths.
      induction loaded as [|e l IH]; [reflexivity|].
      cbn [map flat_map]. rewrite makeRunnable_probes, IH. simpl.
      now destruct (entry_localPath e).
    + induction knownVersions as [|k l IH]; [reflexivity|].
      cbn [map flat_map]. now rewrite makeRunnable_probes.
  - rewrite firstn_app, length_map, Nat.sub_diag. cbn [firstn].
    rewrite app_nil_r, firstn_all2 by (rewrite length_map; lia).
    apply map_ext. intros a. now rewrite makeRunnable_run.
Qed.

(** ** Further edges *)

Lemma contains_trans (a b c : string) : contains a b -> contains b c -> contains a c.
Proof.
  intros [p1 [q1 ->]] [p2 [q2 ->]]. exists (p2 ++ p1), (q1 ++ q2).
  now rewrite !append_assoc.
Qed.

(** X25: the release channel is monotone in the text: a string that
    contains a string of channel beta is of channel beta, and every string
    contained in a string of channel stable is of channel stable. *)
Theorem X25_release_channel_monotone :
  forall inner outer : string,
    contains inner outer ->
    (getReleaseChannel (inr inner) = ElectronReleaseChannel.beta ->
     getReleaseChannel (inr outer) = ElectronReleaseChannel.beta) /\
    (getReleaseChannel (inr outer) = ElectronReleaseChannel.stable ->
     getReleaseChannel (inr inner) = ElectronReleaseChannel.stable).
Proof.
  intros inner outer Hc.
  assert (Hi : forall search, includes search inner = true -> includes search outer = true).
  { intros search H. apply includes_spec. apply includes_spec in H.
    eapply contains_trans; eassumption. }
  unfold getReleaseChannel. split.
  - destruct (includes "beta" inner) eqn:B.
    + now rewrite (Hi _ B).
    + destruct (includes "alpha" inner) eqn:A.
      * intros _. now rewrite (Hi _ A), orb_true_r.
      * simpl. destruct (includes "nightly" inner); discriminate.
  - destruct (includes "beta" inner) eqn:B; [rewrite (Hi _ B); discriminate|].
    destruct (includes "alpha" inner) eqn:A;
      [rewrite (Hi _ A), orb_true_r; discriminate|].
    destruct (includes "nightly" inner) eqn:N; [|reflexivity].
    rewrite (Hi _ N). simpl.
    destruct (includes "beta" outer || includes "alpha" outer); discriminate.
Qed.

Lemma X25_release_channel_witness :
  getReleaseChannel (inr "v13.0.0-beta.2+build") = ElectronReleaseChannel.beta.
Proof.
  apply (proj1 (X25_release_channel_monotone "13.0.0-beta.2" "v13.0.0-beta.2+build"
                  ltac:(now exists "v", "+build"))).
  reflexivity.
Defined.

(** X26: when every known version that ends in ".0.0" parses to a
    finite number, a negative supported-branch count counts from the oldest end:
    with the setting -k, [getOldestSupportedMajor] returns the major at
    index k of the ascending majors, and [undefined] when there are k
    majors or fewer. *)
Theorem X26_negative_branch_count :
  forall (NUM_STABLE_BRANCHES : option string) (knownVersions : list string)
         (majors : list Z),
    map JSNumber.parseInt (filter (endsWith ".0.0") knownVersions) = map Num majors ->
    NUM_BRANCHES NUM_STABLE_BRANCHES < 0 ->
    exists sorted,
      Permutation majors sorted /\ Sorted Z.le sorted /\
      getOldestSupportedMajor NUM_STABLE_BRANCHES knownVersions
      = Ok (option_map Num
              (nth_error sorted (Z.to_nat (- NUM_BRANCHES NUM_STABLE_BRANCHES)))).
Proof.
  intros env knownVersions majors Hm HN.
  destruct (oldest_numeric env knownVersions majors Hm) as [sorted (Hp & Hs & ->)].
  exists sorted. repeat split; auto.
  destruct (Z.ltb_spec (- NUM_BRANCHES env) 0) as [H|_]; [lia|].
  destruct (Z.le_gt_cases (- NUM_BRANCHES env) (Z.of_nat (length sorted))) as [H|H].
  - now rewrite Z.min_l.
  - rewrite Z.min_r by lia. rewrite Nat2Z.id.
    assert (E1 : nth_error sorted (length sorted) = None)
      by (apply nth_error_None; lia).
    assert (E2 : nth_error sorted (Z.to_nat (- NUM_BRANCHES env)) = None)
      by (apply nth_error_None; lia).
    now rewrite E1, E2.
Qed.

Lemma X26_negative_branch_count_witness :
  exists sorted,
    Permutation [10; 12; 11; 9] sorted /\ Sorted Z.le sorted /\
    getOldestSupportedMajor (Some "-1") ["10.0.0"; "12.0.0"; "11.0.0"; "9.0.0"]
    = Ok (option_map Num (nth_error sorted 1)).
Proof.
  apply (X26_negative_branch_count (Some "-1")
           ["10.0.0"; "12.0.0"; "11.0.0"; "9.0.0"] [10; 12; 11; 9]).
  - reflexivity.
  - vm_compute. reflexivity.
Defined.

Lemma getDefaultVersion_strings (localStorage : LocalStorage)
    (versions : list RunnableVersion) :
  getDefaultVersion localStorage versions
  = defaultOfStrings (ls_version localStorage)
      (map (fun v : RunnableVersion => version v) versions).
Proof.
  unfold getDefaultVersion, defaultOfStrings, latestStableVersion.
  assert (F : map (fun ver : RunnableVersion => semver.parse (version ver))
                (filter (fun ver : RunnableVersion => negb (includes "-" (version ver)))
                   versions)
              = map semver.parse
                  (filter (fun v => negb (includes "-" v))
                     (map (fun v : RunnableVersion => version v) versions))).
  { induction versions as [|v l IH]; simpl; [reflexivity|].
    destruct (includes "-" (version v)); simpl; now rewrite IH. }
  rewrite F.
  destruct (ls_version localStorage) as [key|]; [|reflexivity].
  replace (existsb (fun v => (v =? key)%string)
             (map (fun v : RunnableVersion => version v) versions))
    with (existsb (fun v : RunnableVersion => (version v =? key)%string) versions);
    [reflexivity|].
  clear. induction versions as [|v l IH]; simpl; [reflexivity|]. now rewrite IH.
Qed.

(** X27: [getDefaultVersion] looks at nothing but the stored preference
    and the version strings of the candidates: two candidate lists with
    the same version strings, whatever their names, paths, sources and
    install states, and two stores with the same preference give the same
    result. *)
Theorem X27_default_ignores_install_state :
  forall (storage1 storage2 : LocalStorage) (versions1 versions2 : list RunnableVersion),
    ls_version storage1 = ls_version storage2 ->
    map (fun v : RunnableVersion => version v) versions1
    = map (fun v : RunnableVersion => version v) versions2 ->
    getDefaultVersion storage1 versions1 = getDefaultVersion storage2 versions2.
Proof.
  intros s1 s2 v1 v2 Hk Hv.
  now rewrite !getDefaultVersion_strings, Hk, Hv.
Qed.

Lemma X27_default_ignores_witness :
  getDefaultVersion emptyStorage [candidate "10.0.0"; candidate "9.0.0"]
  = getDefaultVersion
      (withLocal emptyStorage (Doc []))
      [{| ver := {| version := "10.0.0"; name := Some "dev";
                    localPath := Some "/builds/e" |};
          source := VersionSource.local; state := InstallState.missing |};
       {| ver := {| version := "9.0.0"; name := None; localPath := None |};
          source := VersionSource.remote; state := InstallState.installed |}].
Proof.
  apply X27_default_ignores_install_state; reflexivity.
Defined.
